(** * Long-term memory vector store and BigQuery query tool

    A shallow embedding of [src/bigquery/index.ts]: the read-only guard of
    the BigQuery "query" tool, and the vector store that keeps long-term
    memory (lazy initialisation, append-only writes, similarity search with
    de-duplication of superseded versions).

    JavaScript values are modelled as follows.
    - A [number] is NaN, an infinity or a finite value; finite binary
      floating-point values are exact rationals, and only comparisons and the
      sign of a difference are used, both of which IEEE-754 computes exactly.
    - A [Date] is its time value in milliseconds, absent for an Invalid Date.
    - A [Map] is an association list in insertion order, as [Map.prototype]
      iterates it.
    - An [async] function is a computation on the module state which either
      returns or throws and which records every call made to a collaborator. *)

From Stdlib Require Import String Ascii List ZArith QArith Bool Lia Lqa.
From Stdlib Require Import DecimalString.
From Stdlib Require Import Sorted Permutation.
Import ListNotations.

Local Open Scope string_scope.
Local Open Scope list_scope.
Local Open Scope Z_scope.

(** ** JavaScript numbers *)

Inductive number : Type :=
| NaN
| PosInf
| NegInf
| Num (q : Q).

(** [ToBoolean] on a number: [0] and [NaN] are falsy. *)
Definition number_truthy (n : number) : bool :=
  match n with
  | NaN => false
  | PosInf | NegInf => true
  | Num q => negb (Qeq_bool q 0)
  end.

(** [a - b]. *)
Definition number_sub (a b : number) : number :=
  match a, b with
  | NaN, _ | _, NaN => NaN
  | PosInf, PosInf => NaN
  | NegInf, NegInf => NaN
  | PosInf, _ => PosInf
  | NegInf, _ => NegInf
  | Num _, PosInf => NegInf
  | Num _, NegInf => PosInf
  | Num x, Num y => Num (x - y)
  end.

(** The order of numbers; NaN is unordered. *)
Definition number_le (a b : number) : Prop :=
  match a, b with
  | NaN, _ | _, NaN => False
  | NegInf, _ => True
  | _, PosInf => True
  | Num x, Num y => (x <= y)%Q
  | _, _ => False
  end.

(** ** Dates *)

(** The time value of a [Date] object; [None] is the NaN of an Invalid Date. *)
Definition Date : Type := option Z.

(** [a > b] on two Date objects: both are converted to their time values,
    and a comparison with NaN is false. *)
Definition Date_gt (a b : Date) : bool :=
  match a, b with
  | Some x, Some y => y <? x
  | _, _ => false
  end.

(** ** Array.prototype.slice and Array.prototype.sort *)

Section Arrays.
Context {A : Type}.

(** [arr.slice(0, end)] for an integer [end]: a negative [end] counts from
    the end of the array. *)
Definition Array_slice0 (arr : list A) (end_ : Z) : list A :=
  let len := Z.of_nat (length arr) in
  let final := if end_ <? 0 then Z.max (len + end_) 0 else Z.min end_ len in
  firstn (Z.to_nat final) arr.

(** The comparison [Array.prototype.sort] makes of two elements: the
    sign of [comparefn(x, y)], NaN being read as [+0]. *)
Definition SortCompare (comparefn : A -> A -> number) (x y : A) : comparison :=
  match comparefn x y with
  | NaN => Eq
  | PosInf => Gt
  | NegInf => Lt
  | Num v => (v ?= 0)%Q
  end.

(** [Array.prototype.sort] is a stable sort. For a consistent comparison
    function its result is determined, so it is modelled by the stable
    insertion sort: [x], which precedes the elements of [sorted] in the
    array, moves behind [y] only when [comparefn(x, y) > 0]. *)
Fixpoint sort_insert (comparefn : A -> A -> number) (x : A) (sorted : list A) : list A :=
  match sorted with
  | [] => [x]
  | y :: rest =>
      match SortCompare comparefn x y with
      | Gt => y :: sort_insert comparefn x rest
      | _ => x :: sorted
      end
  end.

Definition Array_sort (comparefn : A -> A -> number) (arr : list A) : list A :=
  fold_right (sort_insert comparefn) [] arr.
End Arrays.

(** ** Map *)

Section JsMap.
Context {V : Type}.

(** A [Map<string, V>]: its entries in insertion order. *)
Definition JsMap : Type := list (string * V).

Fixpoint Map_get (m : JsMap) (k : string) : option V :=
  match m with
  | [] => None
  | (k', v) :: rest => if String.eqb k k' then Some v else Map_get rest k
  end.

Definition Map_has (m : JsMap) (k : string) : bool :=
  match Map_get m k with
  | Some _ => true
  | None => false
  end.

(** [m.set(k, v)]: an existing key keeps its place in the iteration order,
    a new key goes last. *)
Fixpoint Map_set (m : JsMap) (k : string) (v : V) : JsMap :=
  match m with
  | [] => [(k, v)]
  | (k', v') :: rest =>
      if String.eqb k k' then (k, v) :: rest else (k', v') :: Map_set rest k v
  end.

Definition Map_keys (m : JsMap) : list string := map fst m.

(** [Array.from(m.values())]. *)
Definition Map_values (m : JsMap) : list V := map snd m.
End JsMap.

Arguments JsMap : clear implicits.

(** ** Strings and exceptions *)

(** [`${n}`] for an integer [n]. *)
Definition Z_toString (n : Z) : string := NilZero.string_of_int (Z.to_int n).

Definition nat_toString (n : nat) : string := Z_toString (Z.of_nat n).

(** The double quote character, as a string. *)
Definition dquote : string := String (ascii_of_nat 34) EmptyString.

(** [s.includes(sub)]: [sub] occurs in [s] at some position. *)
Fixpoint String_includes (s sub : string) : bool :=
  if String.prefix sub s then true
  else
    match s with
    | EmptyString => false
    | String _ rest => String_includes rest sub
    end.

(** [String.prototype.toUpperCase] restricted to ASCII text: the letters
    [a] to [z] are mapped to [A] to [Z]. *)
Definition ascii_toUpperCase (c : ascii) : ascii :=
  let n := nat_of_ascii c in
  if ((97 <=? n) && (n <=? 122))%nat then ascii_of_nat (n - 32) else c.

Fixpoint ASCII_toUpperCase (s : string) : string :=
  match s with
  | EmptyString => EmptyString
  | String c rest => String (ascii_toUpperCase c) (ASCII_toUpperCase rest)
  end.

(** [arr.includes(x)] on an array of strings. *)
Definition Array_includes (arr : list string) (x : string) : bool :=
  existsb (String.eqb x) arr.

(** A thrown [Error] with its message. *)
Inductive exn : Type :=
| Error (message : string).

Definition message (e : exn) : string :=
  match e with Error m => m end.

(** How a call ends: it returns a value or throws. *)
Inductive outcome (A : Type) : Type :=
| Returned (a : A)
| Thrown (e : exn).

Arguments Returned {A} a.
Arguments Thrown {A} e.

(** ** The vector store *)

Module VectorStore.

(** The value of a row's [insert_timestamp] property: missing
    ([undefined] or [null]), a Date object, or a string. *)
Inductive TimestampField : Type :=
| Missing
| DateObject (d : Date)
| DateString (s : string).

(** [ToBoolean]: an object is truthy, the empty string is falsy. *)
Definition truthy (t : TimestampField) : bool :=
  match t with
  | Missing => false
  | DateObject _ => true
  | DateString s => negb (String.eqb s "")
  end.

Record LongTermMemoryData : Type := {
  ltm_id : string;
  ltm_text : string;
  ltm_vector : list number;
  ltm_metadata_timestamp : Date;
  ltm_metadata_stage : string
}.

Record SearchResultItem : Type := {
  id : string;
  text : string;
  vector : list number;
  metadata_timestamp : Date;
  metadata_stage : string;
  score : option number;
  insert_timestamp : TimestampField
}.

(** [(a.score || 0)]: a missing, zero or NaN score gives [0]. *)
Definition scoreOrZero (a : SearchResultItem) : number :=
  match score a with
  | Some n => if number_truthy n then n else Num 0
  | None => Num 0
  end.

(** [(a, b) => (b.score || 0) - (a.score || 0)]. *)
Definition compareScore (a b : SearchResultItem) : number :=
  number_sub (scoreOrZero b) (scoreOrZero a).

Section PostProcess.
(** [new Date(s)] for a string [s]; the accepted formats are left to the
    JavaScript engine. *)
Variable Date_parse : string -> Date.

(** [t instanceof Date ? t : new Date(t as string)]. *)
Definition toDate (t : TimestampField) : Date :=
  match t with
  | DateObject d => d
  | DateString s => Date_parse s
  | Missing => None
  end.

(** The body of the loop over the fetched rows. *)
Definition dedupStep (latestByIdMap : JsMap SearchResultItem) (item : SearchResultItem)
  : JsMap SearchResultItem :=
  if truthy (insert_timestamp item) then
    let existingItem := Map_get latestByIdMap (id item) in
    let itemTimestamp := toDate (insert_timestamp item) in
    match existingItem with
    | None => Map_set latestByIdMap (id item) item
    | Some existing =>
        if negb (truthy (insert_timestamp existing)) then
          Map_set latestByIdMap (id item) item
        else
          let existingTimestamp := toDate (insert_timestamp existing) in
          if Date_gt itemTimestamp existingTimestamp then
            Map_set latestByIdMap (id item) item
          else latestByIdMap
    end
  else
    if negb (Map_has latestByIdMap (id item)) then
      Map_set latestByIdMap (id item) item
    else latestByIdMap.

Definition latestById (results : list SearchResultItem) : JsMap SearchResultItem :=
  fold_left dedupStep results [].

(** [dedupedResults]: the values of the map, sorted and cut to [topN]. *)
Definition dedupedResults (results : list SearchResultItem) (topN : Z)
  : list SearchResultItem :=
  Array_slice0 (Array_sort compareScore (Map_values (latestById results))) topN.
End PostProcess.

(** *** Collaborators and module state *)

(** Handles of the database library. *)
Inductive Connection : Type := ConnectionHandle (n : nat).
Inductive Table : Type := TableHandle (n : nat).

(** A row as it is handed to the database ([Record<string, unknown>]):
    the memory item, and the insertion timestamp when one was attached. *)
Record LanceDbDataFormat : Type := {
  row_id : string;
  row_text : string;
  row_vector : list number;
  row_metadata_timestamp : Date;
  row_metadata_stage : string;
  row_insert_timestamp : option Date
}.

(** Calls to the database library and to the embedding service. *)
Inductive event : Type :=
| CallConnect (uri : string)
| CallTableNames (c : Connection)
| CallOpenTable (c : Connection) (name : string)
| CallGetEmbeddings (input : string)
| CallCreateTable (c : Connection) (name : string) (data : list LanceDbDataFormat)
| CallAdd (t : Table) (data : list LanceDbDataFormat)
| CallSearch (t : Table) (queryEmbedding : list number) (limit : Z) (where_ : option string).

Definition isCreateTable (ev : event) : bool :=
  match ev with
  | CallCreateTable _ _ _ => true
  | _ => false
  end.

Inductive level : Type := LOG | WARN | ERROR.

(** One call of [console.log], [console.warn] or [console.error]: the
    level, the text, and the error object when one is passed after the text. *)
Definition ConsoleEntry : Type := (level * string * option exn)%type.

(** What the outside world answers during one operation. [search] stands
    for [table.search(q).limit(n)], [.where(f)] when a filter is given, and
    [.toArray()]. *)
Record Collaborators : Type := {
  VECTOR_STORE_DIR : string;
  ProcessingStage_PREPARATION : string;
  Date_parse : string -> Date;
  clock : nat -> Z;
  connect : string -> outcome Connection;
  tableNames : Connection -> outcome (list string);
  openTable : Connection -> string -> outcome Table;
  createTable : Connection -> string -> list LanceDbDataFormat -> outcome Table;
  getEmbeddings : string -> outcome (option (list number));
  add : Table -> list LanceDbDataFormat -> outcome unit;
  search : Table -> list number -> Z -> option string -> outcome (list SearchResultItem)
}.

Definition TABLE_NAME : string := "long_term_memory".

(** The module variables [db], [table] and [isInitialized], with the calls
    made so far, the console output and the number of clock readings. *)
Record State : Type := {
  db : option Connection;
  table : option Table;
  isInitialized : bool;
  calls : list event;
  console : list ConsoleEntry;
  ticks : nat
}.

Definition initialState : State :=
  {| db := None; table := None; isInitialized := false;
     calls := []; console := []; ticks := 0 |}.

(** *** Computations *)

Definition M (A : Type) : Type := State -> outcome A * State.

Definition ret {A} (a : A) : M A := fun s => (Returned a, s).

Definition throw {A} (e : exn) : M A := fun s => (Thrown e, s).

Definition bind {A B} (m : M A) (f : A -> M B) : M B :=
  fun s =>
    match m s with
    | (Returned a, s') => f a s'
    | (Thrown e, s') => (Thrown e, s')
    end.

(** [try { m } catch (error) { handler error }]. *)
Definition try_catch {A} (m : M A) (handler : exn -> M A) : M A :=
  fun s =>
    match m s with
    | (Returned a, s') => (Returned a, s')
    | (Thrown e, s') => handler e s'
    end.

Declare Scope vs_scope.
Delimit Scope vs_scope with vs.
Notation "x <- m ;; k" := (bind m (fun x => k))
  (at level 61, m at next level, right associativity) : vs_scope.
Notation "m ;; k" := (bind m (fun _ => k))
  (at level 61, right associativity) : vs_scope.
Local Open Scope vs_scope.

(** [await] of a call to a collaborator: the call is recorded and ends
    as the collaborator decides. *)
Definition await {A} (ev : event) (answer : outcome A) : M A :=
  fun s =>
    (answer,
     {| db := db s; table := table s; isInitialized := isInitialized s;
        calls := calls s ++ [ev]; console := console s; ticks := ticks s |}).

Definition console_write (l : level) (msg : string) : M unit :=
  fun s =>
    (Returned tt,
     {| db := db s; table := table s; isInitialized := isInitialized s;
        calls := calls s; console := console s ++ [(l, msg, None)]; ticks := ticks s |}).

(** [console.error(msg, error)]. *)
Definition console_error_with (msg : string) (error : exn) : M unit :=
  fun s =>
    (Returned tt,
     {| db := db s; table := table s; isInitialized := isInitialized s;
        calls := calls s; console := console s ++ [(ERROR, msg, Some error)];
        ticks := ticks s |}).

Definition get_table : M (option Table) := fun s => (Returned (table s), s).

Definition get_isInitialized : M bool := fun s => (Returned (isInitialized s), s).

Definition set_db (v : option Connection) : M unit :=
  fun s =>
    (Returned tt,
     {| db := v; table := table s; isInitialized := isInitialized s;
        calls := calls s; console := console s; ticks := ticks s |}).

Definition set_table (v : option Table) : M unit :=
  fun s =>
    (Returned tt,
     {| db := db s; table := v; isInitialized := isInitialized s;
        calls := calls s; console := console s; ticks := ticks s |}).

Definition set_isInitialized (v : bool) : M unit :=
  fun s =>
    (Returned tt,
     {| db := db s; table := table s; isInitialized := v;
        calls := calls s; console := console s; ticks := ticks s |}).

Fixpoint mapM {A B} (f : A -> M B) (l : list A) : M (list B) :=
  match l with
  | [] => ret []
  | x :: rest => y <- f x ;; ys <- mapM f rest ;; ret (y :: ys)
  end.

Section Operations.
Variable W : Collaborators.

(** [new Date()]. *)
Definition new_Date : M Date :=
  fun s =>
    (Returned (Some (clock W (ticks s))),
     {| db := db s; table := table s; isInitialized := isInitialized s;
        calls := calls s; console := console s; ticks := S (ticks s) |}).

(** The error of a sample embedding that is absent or empty. *)
Definition EmbeddingUnavailable : exn :=
  Error "Could not determine embedding dimension. Ensure embedding service is configured and API key is valid.".

(** The placeholder record from which the database infers the schema. *)
Definition dummyData (embeddingDimension : nat) (today : Date) : list LanceDbDataFormat :=
  [ {| row_id := "dummy_id";
       row_text := "dummy_text";
       row_vector := repeat (Num 0) embeddingDimension;
       row_metadata_timestamp := today;
       row_metadata_stage := ProcessingStage_PREPARATION W;
       row_insert_timestamp := None |} ].

Definition initializeVectorStore : M unit :=
  initialized <- get_isInitialized ;;
  if initialized then ret tt
  else
    try_catch
      (console_write LOG ("Initializing vector store at: " ++ VECTOR_STORE_DIR W)%string ;;
       c <- await (CallConnect (VECTOR_STORE_DIR W)) (connect W (VECTOR_STORE_DIR W)) ;;
       set_db (Some c) ;;
       names <- await (CallTableNames c) (tableNames W c) ;;
       (if Array_includes names TABLE_NAME then
          console_write LOG ("Opening existing vector store table: " ++ TABLE_NAME)%string ;;
          t <- await (CallOpenTable c TABLE_NAME) (openTable W c TABLE_NAME) ;;
          set_table (Some t)
        else
          console_write LOG ("Creating new vector store table: " ++ TABLE_NAME)%string ;;
          sampleEmbedding <- await (CallGetEmbeddings "schema_init")
                                   (getEmbeddings W "schema_init") ;;
          match option_map (@List.length number) sampleEmbedding with
          | None | Some O =>
              throw EmbeddingUnavailable
          | Some embeddingDimension =>
              console_write LOG ("Determined embedding dimension for schema: "
                                 ++ nat_toString embeddingDimension)%string ;;
              today <- new_Date ;;
              let data := dummyData embeddingDimension today in
              t <- await (CallCreateTable c TABLE_NAME data)
                         (createTable W c TABLE_NAME data) ;;
              set_table (Some t) ;;
              console_write LOG ("Vector store table " ++ dquote ++ TABLE_NAME ++ dquote
                                 ++ " created successfully with inferred schema.")%string
          end) ;;
       set_isInitialized true ;;
       console_write LOG "Vector store initialized successfully.")
      (fun error =>
         console_error_with ("Error initializing vector store: " ++ message error)%string error ;;
         set_isInitialized false ;;
         set_db None ;;
         set_table None ;;
         throw error).

(** [{...item, metadata_timestamp: new Date(item.metadata_timestamp)}]:
    the copy of a Date has its time value. *)
Definition toRow (item : LongTermMemoryData) : LanceDbDataFormat :=
  {| row_id := ltm_id item;
     row_text := ltm_text item;
     row_vector := ltm_vector item;
     row_metadata_timestamp := ltm_metadata_timestamp item;
     row_metadata_stage := ltm_metadata_stage item;
     row_insert_timestamp := None |}.

(** [{...item, insert_timestamp: new Date()}]. *)
Definition withInsertTimestamp (item : LanceDbDataFormat) : M LanceDbDataFormat :=
  today <- new_Date ;;
  ret {| row_id := row_id item;
         row_text := row_text item;
         row_vector := row_vector item;
         row_metadata_timestamp := row_metadata_timestamp item;
         row_metadata_stage := row_metadata_stage item;
         row_insert_timestamp := Some today |}.

Definition addOrUpdateMemoryItems (items : option (list LongTermMemoryData)) : M unit :=
  initializeVectorStore ;;
  t <- get_table ;;
  match t with
  | None => console_write ERROR "Vector store table not available. Cannot add items."
  | Some _ =>
      match items with
      | None | Some [] =>
          console_write LOG "No items provided to add/update in vector store."
      | Some items =>
          try_catch
            (let dataToInsert := map toRow items in
             t' <- get_table ;;
             match t' with
             | Some tbl =>
                 timestampedData <- mapM withInsertTimestamp dataToInsert ;;
                 await (CallAdd tbl timestampedData) (add W tbl timestampedData) ;;
                 console_write LOG ("Added " ++ nat_toString (List.length items)
                                    ++ " items to vector store with versioning information")%string
             | None => ret tt
             end)
            (fun error =>
               console_write ERROR ("Error adding/updating items in vector store: "
                                    ++ message error)%string)
      end
  end.

(** [if (filter) query = query.where(filter)]: an empty filter is falsy. *)
Definition whereClause (filter : option string) : option string :=
  match filter with
  | Some f => if String.eqb f "" then None else Some f
  | None => None
  end.

Definition searchLongTermMemory (queryEmbedding : option (list number)) (topN : Z)
           (filter : option string) : M (list SearchResultItem) :=
  initializeVectorStore ;;
  t <- get_table ;;
  match t with
  | None =>
      console_write ERROR "Vector store table not available. Cannot search." ;;
      ret []
  | Some tbl =>
      match queryEmbedding with
      | None | Some [] =>
          console_write WARN "Empty query embedding provided for vector store search." ;;
          ret []
      | Some q =>
          try_catch
            (let where_ := whereClause filter in
             results <- await (CallSearch tbl q topN where_) (search W tbl q topN where_) ;;
             let deduped := dedupedResults (Date_parse W) results topN in
             console_write LOG ("Vector store search found " ++ nat_toString (List.length results)
                                ++ " results, filtered to " ++ nat_toString (List.length deduped)
                                ++ " unique items (top " ++ Z_toString topN ++ ").")%string ;;
             ret deduped)
            (fun error =>
               console_write ERROR ("Error searching vector store: " ++ message error)%string ;;
               ret [])
      end
  end.
End Operations.

End VectorStore.

(** ** The BigQuery server: the handler of tool calls *)

Module BigQueryServer.

(** The options of [bigquery.query]. *)
Record QueryOptions : Type := {
  query : string;
  location : string;
  maximumBytesBilled : string
}.

(** The handler's reply: [content[0].text] and [isError]. *)
Record CallToolResult : Type := {
  content_text : string;
  isError : bool
}.

Section Handler.
(** [String.prototype.toUpperCase], with the case mapping of Unicode. *)
Variable toUpperCase : string -> string.
(** [qualifyTablePath]: a rewrite by a regular expression, which
    throws for an unqualified [INFORMATION_SCHEMA]. *)
Variable qualifyTablePath : string -> string -> outcome string.
(** The rows a query gives, and [JSON.stringify(rows, null, 2)]. *)
Variable Rows : Type.
Variable JSON_stringify : Rows -> string.
Variable bigquery_query : QueryOptions -> outcome Rows.
(** The command-line arguments. *)
Variable projectId : string.
Variable location_ : string.

(** The handler of [CallToolRequestSchema]. [sql] and [maxBytes] are the
    properties of [request.params.arguments], [None] when missing. The
    second component lists the queries sent to the backend. *)
Definition callTool (name : string) (sql : option string) (maxBytes : option string)
  : outcome CallToolResult * list QueryOptions :=
  if String.eqb name "query" then
    let maximumBytesBilled_ :=
      match maxBytes with
      | Some m => if String.eqb m "" then "1000000000" else m
      | None => "1000000000"
      end in
    match sql with
    | None => (Thrown (Error "Cannot read properties of undefined (reading 'toUpperCase')"), [])
    | Some sql =>
        let upperSql := toUpperCase sql in
        if String_includes upperSql "INSERT"
           || String_includes upperSql "UPDATE"
           || String_includes upperSql "DELETE"
           || String_includes upperSql "CREATE"
           || String_includes upperSql "DROP"
        then (Thrown (Error "Only READ operations are allowed"), [])
        else
          let qualified :=
            if String_includes (toUpperCase sql) "INFORMATION_SCHEMA"
            then qualifyTablePath sql projectId
            else Returned sql in
          match qualified with
          | Thrown e => (Thrown e, [])
          | Returned sql' =>
              let options := {| query := sql'; location := location_;
                                maximumBytesBilled := maximumBytesBilled_ |} in
              match bigquery_query options with
              | Thrown e => (Thrown e, [options])
              | Returned rows =>
                  (Returned {| content_text := JSON_stringify rows; isError := false |},
                   [options])
              end
          end
    end
  else (Thrown (Error ("Unknown tool: " ++ name)%string), []).
End Handler.

End BigQueryServer.

(** ** The BigQuery server: qualifying INFORMATION_SCHEMA *)

Module BigQueryText.

(** Texts are sequences of code units below 256. *)

(** [\w]: a letter of [A-Z] or [a-z], a digit, or the underscore. *)
Definition isWordChar (c : ascii) : bool :=
  let n := nat_of_ascii c in
  (((48 <=? n) && (n <=? 57)) || ((65 <=? n) && (n <=? 90))
   || ((97 <=? n) && (n <=? 122)) || (n =? 95))%nat.

(** [\s]: tab, line feed, vertical tab, form feed, carriage return, space
    and no-break space. *)
Definition isWhiteSpace (c : ascii) : bool :=
  let n := nat_of_ascii c in
  (((9 <=? n) && (n <=? 13)) || (n =? 32) || (n =? 160))%nat.

(** A literal of the pattern matched at the head of [s] under the flag [i]:
    the code units are compared after the mapping of [a-z] to [A-Z]. The
    result is what follows the match. *)
Fixpoint matchLiteral (literal s : string) : option string :=
  match literal with
  | EmptyString => Some s
  | String p literal' =>
      match s with
      | EmptyString => None
      | String c s' =>
          if Ascii.eqb (ascii_toUpperCase c) (ascii_toUpperCase p)
          then matchLiteral literal' s'
          else None
      end
  end.

(** The longest run of code units of a class at the head of [s], and what
    follows it. *)
Fixpoint span (class : ascii -> bool) (s : string) : string * string :=
  match s with
  | EmptyString => (EmptyString, EmptyString)
  | String c s' =>
      if class c
      then let (run, rest) := span class s' in (String c run, rest)
      else (EmptyString, s)
  end.

(** A match of [/FROM\s+(?:(\w+)\.)?INFORMATION_SCHEMA\.TABLES/i] at the head
    of [s]: the capture of the group and what follows the match. Both
    quantified runs are greedy, and giving back part of a run never helps: a
    shorter run of white space is followed by white space, which begins
    neither a word nor the literal, and a shorter run of word characters is
    followed by a word character, not by the dot. The group is tried before
    the match without it. *)
Definition matchAt (s : string) : option (option string * string) :=
  match matchLiteral "FROM" s with
  | None => None
  | Some afterFrom =>
      match span isWhiteSpace afterFrom with
      | (EmptyString, _) => None
      | (String _ _, afterSpace) =>
          let (word, afterWord) := span isWordChar afterSpace in
          let withDataset :=
            match word, afterWord with
            | String _ _, String "." afterDot =>
                matchLiteral "INFORMATION_SCHEMA.TABLES" afterDot
            | _, _ => None
            end in
          match withDataset with
          | Some rest => Some (Some word, rest)
          | None =>
              match matchLiteral "INFORMATION_SCHEMA.TABLES" afterSpace with
              | Some rest => Some (None, rest)
              | None => None
              end
          end
      end
  end.

Definition datasetRequired : exn :=
  Error "Dataset must be specified when querying INFORMATION_SCHEMA (e.g. dataset.INFORMATION_SCHEMA.TABLES)".

(** The value the callback returns for a match with a dataset. *)
Definition qualified (projectId dataset : string) : string :=
  ("FROM `" ++ projectId ++ "." ++ dataset ++ ".INFORMATION_SCHEMA.TABLES`")%string.

Definition prepend (head : string) (r : outcome string) : outcome string :=
  match r with
  | Returned tail => Returned (head ++ tail)%string
  | Thrown e => Thrown e
  end.

(** [sql.replace(unqualifiedPattern, callback)] under the flag [g]: the
    matches are taken from left to right and do not overlap; [skip] counts the
    code units of the last match still to be passed over. A match without
    dataset makes the callback throw. *)
Fixpoint replaceMatches (projectId : string) (skip : nat) (s : string) : outcome string :=
  match skip with
  | S skip' =>
      match s with
      | EmptyString => Returned EmptyString
      | String _ s' => replaceMatches projectId skip' s'
      end
  | O =>
      match matchAt s with
      | Some (Some dataset, rest) =>
          match s with
          | EmptyString => Returned EmptyString
          | String _ s' =>
              prepend (qualified projectId dataset)
                      (replaceMatches projectId (String.length s' - String.length rest) s')
          end
      | Some (None, _) => Thrown datasetRequired
      | None =>
          match s with
          | EmptyString => Returned EmptyString
          | String c s' => prepend (String c EmptyString) (replaceMatches projectId O s')
          end
      end
  end.

Definition qualifyTablePath (sql projectId : string) : outcome string :=
  replaceMatches projectId O sql.

End BigQueryText.

(** ** The BigQuery server: listing and reading resources *)

Module BigQueryResources.

(** [s.split(sep)] for a separator of one code unit. *)
Fixpoint String_split (sep : ascii) (s : string) : list string :=
  match s with
  | EmptyString => [EmptyString]
  | String c rest =>
      if Ascii.eqb c sep then EmptyString :: String_split sep rest
      else
        match String_split sep rest with
        | [] => [String c EmptyString]
        | first :: others => String c first :: others
        end
  end.

(** [arr.pop()]: the last element, [None] for [undefined], and the array
    that is left. *)
Definition Array_pop {A : Type} (arr : list A) : option A * list A :=
  match rev arr with
  | [] => (None, [])
  | last :: others => (Some last, rev others)
  end.

Definition SCHEMA_PATH : string := "schema".

Record Resource : Type := {
  uri : string;
  mimeType : string;
  name : string
}.

(** The one element of [contents] in the reply to a read. *)
Record ResourceContents : Type := {
  contents_uri : string;
  contents_mimeType : string;
  contents_text : string
}.

(** A dataset object: its id and what [getTables()] gives for it, the ids
    of its tables. *)
Record Dataset : Type := {
  dataset_id : string;
  getTables : outcome (list string)
}.

(** Calls to the backend. *)
Inductive call : Type :=
| GetDatasets
| GetTables (datasetId : string)
| GetMetadata (datasetId tableId : option string).

Section Handlers.
(** [new URL(relative, resourceBaseUrl).href]. *)
Variable URL_href : string -> outcome string.
(** [new URL(uri).pathname]. *)
Variable URL_pathname : string -> outcome string.
Variable getDatasets : outcome (list Dataset).
(** The fields of a table's schema and [JSON.stringify(fields, null, 2)];
    [getMetadata] stands for [bigquery.dataset(d).table(t).getMetadata()]
    and the reading of [metadata.schema.fields]. *)
Variable Fields : Type.
Variable getMetadata : option string -> option string -> outcome Fields.
Variable JSON_stringify : Fields -> string.

(** The inner loop: one resource for each table. *)
Fixpoint tableResources (datasetId : string) (tables : list string)
  : outcome (list Resource) :=
  match tables with
  | [] => Returned []
  | tableId :: rest =>
      match URL_href (datasetId ++ "/" ++ tableId ++ "/" ++ SCHEMA_PATH)%string with
      | Thrown e => Thrown e
      | Returned href =>
          match tableResources datasetId rest with
          | Thrown e => Thrown e
          | Returned resources =>
              Returned ({| uri := href;
                           mimeType := "application/json";
                           name := (dquote ++ datasetId ++ "." ++ tableId ++ dquote
                                    ++ " table schema")%string |} :: resources)
          end
      end
  end.

(** The outer loop, with the calls it makes. *)
Fixpoint datasetResources (datasets : list Dataset) : outcome (list Resource) * list call :=
  match datasets with
  | [] => (Returned [], [])
  | dataset :: rest =>
      match getTables dataset with
      | Thrown e => (Thrown e, [GetTables (dataset_id dataset)])
      | Returned tables =>
          match tableResources (dataset_id dataset) tables with
          | Thrown e => (Thrown e, [GetTables (dataset_id dataset)])
          | Returned resources =>
              let (r, calls) := datasetResources rest in
              (match r with
               | Returned more => Returned (resources ++ more)
               | Thrown e => Thrown e
               end,
               GetTables (dataset_id dataset) :: calls)
          end
      end
  end.

(** The handler of [ListResourcesRequestSchema]; the [catch] throws the
    error again. *)
Definition listResources : outcome (list Resource) * list call :=
  match getDatasets with
  | Thrown e => (Thrown e, [GetDatasets])
  | Returned datasets =>
      let (r, calls) := datasetResources datasets in (r, GetDatasets :: calls)
  end.

(** The handler of [ReadResourceRequestSchema]. *)
Definition readResource (requestUri : string) : outcome ResourceContents * list call :=
  match URL_pathname requestUri with
  | Thrown e => (Thrown e, [])
  | Returned pathname =>
      let pathComponents := String_split "/" pathname in
      let (schema, pathComponents1) := Array_pop pathComponents in
      let (tableId, pathComponents2) := Array_pop pathComponents1 in
      let (datasetId, _) := Array_pop pathComponents2 in
      match schema with
      | Some last =>
          if String.eqb last SCHEMA_PATH then
            match getMetadata datasetId tableId with
            | Thrown e => (Thrown e, [GetMetadata datasetId tableId])
            | Returned fields =>
                (Returned {| contents_uri := requestUri;
                             contents_mimeType := "application/json";
                             contents_text := JSON_stringify fields |},
                 [GetMetadata datasetId tableId])
            end
          else (Thrown (Error "Invalid resource URI"), [])
      | None => (Thrown (Error "Invalid resource URI"), [])
      end
  end.
End Handlers.

End BigQueryResources.

(** ** Vocabulary of the properties *)

Module Vocabulary.
Import VectorStore.

(** The time value [T] of a row's truthy [insert_timestamp]. *)
Definition hasInsertTime (Date_parse : string -> Date) (r : SearchResultItem) (T : Z) : Prop :=
  truthy (insert_timestamp r) = true /\ toDate Date_parse (insert_timestamp r) = Some T.

(** [a] is strictly earlier than [b]: both are valid dates and the time
    value of [a] is the smaller one. *)
Definition Date_earlier (a b : Date) : Prop :=
  match a, b with
  | Some x, Some y => x < y
  | _, _ => False
  end.

(** Every entry is filed under the id of its row, and no key occurs twice. *)
Definition keyed (m : JsMap SearchResultItem) : Prop :=
  NoDup (Map_keys m) /\ Forall (fun e => fst e = id (snd e)) m.

(** The entry of [a] carries a timestamp that [T] does not exceed. *)
Definition settled (Date_parse : string -> Date) (a : string) (T : Z)
           (m : JsMap SearchResultItem) : Prop :=
  exists e, Map_get m a = Some e
            /\ truthy (insert_timestamp e) = true
            /\ Date_gt (Some T) (toDate Date_parse (insert_timestamp e)) = false.

(** The entry of [a] carries a timestamp. *)
Definition versioned (a : string) (m : JsMap SearchResultItem) : Prop :=
  exists e, Map_get m a = Some e /\ truthy (insert_timestamp e) = true.

(** [a] may stand before [b] in a sequence of descending score. *)
Definition descScore (a b : SearchResultItem) : Prop :=
  number_le (scoreOrZero b) (scoreOrZero a).

(** The number of distinct ids among the fetched rows. *)
Definition distinctIds (rows : list SearchResultItem) : nat :=
  List.length (nodup string_dec (map id rows)).

(** A row with the given id, text, score and insertion timestamp. *)
Definition sampleRow (i t : string) (s : option number) (ts : TimestampField)
  : SearchResultItem :=
  {| id := i; text := t; vector := []; metadata_timestamp := Some 0;
     metadata_stage := "PREPARATION"; score := s; insert_timestamp := ts |}.

(** Sample rows: two versions of the memory item [a], a legacy row of [a],
    a copy of the old version written at the same time, and an item [b]. *)
Definition rowOld : SearchResultItem :=
  sampleRow "a" "first version" (Some (Num (9 # 10))) (DateObject (Some 1000)).
Definition rowNew : SearchResultItem :=
  sampleRow "a" "second version" (Some (Num (7 # 10))) (DateObject (Some 2000)).
Definition rowLegacy : SearchResultItem :=
  sampleRow "a" "legacy version" (Some (Num (8 # 10))) Missing.
Definition rowTwin : SearchResultItem :=
  sampleRow "a" "same instant" (Some (Num (5 # 10))) (DateObject (Some 1000)).
Definition rowOther : SearchResultItem :=
  sampleRow "b" "another item" None (DateString "2024-01-01T00:00:00Z").

(** A parser that knows no date format: every string is an Invalid Date. *)
Definition noParse (s : string) : Date := None.
(** The store is not ready: the flag is down and both handles are cleared. *)
Definition notReady (s : State) : Prop :=
  isInitialized s = false /\ db s = None /\ table s = None.

(** A step of the initialization started in state [s] fails with [e]:
    the connection, the listing or the opening of the table, the sample
    embedding (the call, or its dimension), or the creation of the table. *)
Inductive initFailure (W : Collaborators) (s : State) : exn -> Prop :=
| ConnectFails e :
    connect W (VECTOR_STORE_DIR W) = Thrown e ->
    initFailure W s e
| TableNamesFails c e :
    connect W (VECTOR_STORE_DIR W) = Returned c ->
    tableNames W c = Thrown e ->
    initFailure W s e
| OpenTableFails c names e :
    connect W (VECTOR_STORE_DIR W) = Returned c ->
    tableNames W c = Returned names ->
    Array_includes names TABLE_NAME = true ->
    openTable W c TABLE_NAME = Thrown e ->
    initFailure W s e
| GetEmbeddingsFails c names e :
    connect W (VECTOR_STORE_DIR W) = Returned c ->
    tableNames W c = Returned names ->
    Array_includes names TABLE_NAME = false ->
    getEmbeddings W "schema_init" = Thrown e ->
    initFailure W s e
| NoDimension c names sample :
    connect W (VECTOR_STORE_DIR W) = Returned c ->
    tableNames W c = Returned names ->
    Array_includes names TABLE_NAME = false ->
    getEmbeddings W "schema_init" = Returned sample ->
    sample = None \/ sample = Some [] ->
    initFailure W s EmbeddingUnavailable
| CreateTableFails c names x sample e :
    connect W (VECTOR_STORE_DIR W) = Returned c ->
    tableNames W c = Returned names ->
    Array_includes names TABLE_NAME = false ->
    getEmbeddings W "schema_init" = Returned (Some (x :: sample)) ->
    createTable W c TABLE_NAME
                (dummyData W (S (List.length sample)) (Some (clock W (ticks s)))) = Thrown e ->
    initFailure W s e.

(** The attempts to create the table among the calls made so far. *)
Definition creations (s : State) : nat :=
  List.length (filter isCreateTable (calls s)).

(** Calls of the initializer one after the other, each in the world it
    meets; the callers go on whether it returns or throws. *)
Fixpoint runInits (Ws : list Collaborators) (s : State) : State :=
  match Ws with
  | [] => s
  | W :: rest => runInits rest (snd (initializeVectorStore W s))
  end.

(** A world in which nothing can be reached. *)
Definition deadWorld : Collaborators :=
  {| VECTOR_STORE_DIR := "/home/user/.sequential-thinking/vector_store";
     ProcessingStage_PREPARATION := "PREPARATION";
     Date_parse := noParse;
     clock := fun n => 1700000000000 + Z.of_nat n;
     connect := fun _ => Thrown (Error "connection refused");
     tableNames := fun _ => Thrown (Error "connection refused");
     openTable := fun _ _ => Thrown (Error "connection refused");
     createTable := fun _ _ _ => Thrown (Error "connection refused");
     getEmbeddings := fun _ => Thrown (Error "embedding service unavailable");
     add := fun _ _ => Thrown (Error "connection refused");
     search := fun _ _ _ _ => Thrown (Error "connection refused") |}.

(** A world with an empty database, where every call succeeds; a search
    fetches the given rows. *)
Definition freshWorld (rows : list SearchResultItem) : Collaborators :=
  {| VECTOR_STORE_DIR := "/home/user/.sequential-thinking/vector_store";
     ProcessingStage_PREPARATION := "PREPARATION";
     Date_parse := noParse;
     clock := fun n => 1700000000000 + Z.of_nat n;
     connect := fun _ => Returned (ConnectionHandle 1);
     tableNames := fun _ => Returned [];
     openTable := fun _ _ => Returned (TableHandle 1);
     createTable := fun _ _ _ => Returned (TableHandle 1);
     getEmbeddings := fun _ => Returned (Some [Num (1 # 2); Num (1 # 4)]);
     add := fun _ _ => Returned tt;
     search := fun _ _ _ _ => Returned rows |}.

(** The world of an initialized store whose table rejects every call. *)
Definition brokenTableWorld : Collaborators :=
  {| VECTOR_STORE_DIR := "/home/user/.sequential-thinking/vector_store";
     ProcessingStage_PREPARATION := "PREPARATION";
     Date_parse := noParse;
     clock := fun n => 1700000000000 + Z.of_nat n;
     connect := fun _ => Returned (ConnectionHandle 1);
     tableNames := fun _ => Returned [TABLE_NAME];
     openTable := fun _ _ => Returned (TableHandle 1);
     createTable := fun _ _ _ => Returned (TableHandle 1);
     getEmbeddings := fun _ => Returned (Some [Num (1 # 2); Num (1 # 4)]);
     add := fun _ _ => Thrown (Error "disk full");
     search := fun _ _ _ _ => Thrown (Error "index corrupted") |}.

(** The world of a store whose table takes the empty batch only. *)
Definition pickyTableWorld : Collaborators :=
  {| VECTOR_STORE_DIR := "/home/user/.sequential-thinking/vector_store";
     ProcessingStage_PREPARATION := "PREPARATION";
     Date_parse := noParse;
     clock := fun n => 1700000000000 + Z.of_nat n;
     connect := fun _ => Returned (ConnectionHandle 1);
     tableNames := fun _ => Returned [TABLE_NAME];
     openTable := fun _ _ => Returned (TableHandle 1);
     createTable := fun _ _ _ => Returned (TableHandle 1);
     getEmbeddings := fun _ => Returned (Some [Num (1 # 2); Num (1 # 4)]);
     add := fun _ data => match data with
                          | [] => Returned tt
                          | _ :: _ => Thrown (Error "disk full")
                          end;
     search := fun _ _ _ _ => Returned [] |}.

(** A state whose flag is set although no table handle is held. *)
Definition handlelessState : State :=
  {| db := None; table := None; isInitialized := true;
     calls := []; console := []; ticks := 0 |}.

(** A memory item. *)
Definition sampleItem : LongTermMemoryData :=
  {| ltm_id := "a"; ltm_text := "remember this"; ltm_vector := [Num (1 # 2); Num (1 # 4)];
     ltm_metadata_timestamp := Some 1700000000000; ltm_metadata_stage := "PREPARATION" |}.
(** [sub] occurs in [s]. *)
Definition occursIn (sub s : string) : Prop :=
  exists before after, s = (before ++ sub ++ after)%string.

(** The words the query tool refuses. *)
Definition writeKeywords : list string :=
  ["INSERT"; "UPDATE"; "DELETE"; "CREATE"; "DROP"].

(** The refusal of the query tool. *)
Definition readOnlyError : exn := Error "Only READ operations are allowed".
End Vocabulary.

(** ** Further sample data *)

Module Samples.
Import VectorStore Vocabulary.

(** A version of [a] whose insertion timestamp no parser understands. *)
Definition rowBroken : SearchResultItem :=
  sampleRow "a" "broken date" None (DateString "yesterday").

(** A second legacy row of [a]. *)
Definition rowLegacyLater : SearchResultItem :=
  sampleRow "a" "later legacy version" None Missing.

(** Two rows without score, of the ids [b] and [a]. *)
Definition rowPlainB : SearchResultItem := sampleRow "b" "second id" None Missing.
Definition rowPlainA : SearchResultItem := sampleRow "a" "first id" None Missing.

(** A world with an empty database whose embedding service answers
    nothing. *)
Definition noEmbeddingWorld : Collaborators :=
  {| VECTOR_STORE_DIR := "/home/user/.sequential-thinking/vector_store";
     ProcessingStage_PREPARATION := "PREPARATION";
     Date_parse := noParse;
     clock := fun n => 1700000000000 + Z.of_nat n;
     connect := fun _ => Returned (ConnectionHandle 1);
     tableNames := fun _ => Returned ["notes"];
     openTable := fun _ _ => Returned (TableHandle 1);
     createTable := fun _ _ _ => Returned (TableHandle 1);
     getEmbeddings := fun _ => Returned None;
     add := fun _ _ => Returned tt;
     search := fun _ _ _ _ => Returned [] |}.
End Samples.

(** ** Vocabulary of texts *)

Module TextVocabulary.
Import BigQueryText BigQueryResources.

(** Two texts that differ at most in the case of the letters [a-z]. *)
Definition sameIgnoringCase (a b : string) : Prop :=
  ASCII_toUpperCase a = ASCII_toUpperCase b.

(** Every code unit of [s] is in the class. *)
Fixpoint String_forallb (class : ascii -> bool) (s : string) : bool :=
  match s with
  | EmptyString => true
  | String c rest => class c && String_forallb class rest
  end.

(** No letter F, in either case, in [s]. *)
Definition withoutF (s : string) : Prop :=
  String_forallb (fun c => negb (Ascii.eqb (ascii_toUpperCase c) "F")) s = true.

(** A name made of word characters, at least one. *)
Definition isWord (s : string) : Prop :=
  s <> EmptyString /\ String_forallb isWordChar s = true.

(** White space, at least one code unit. *)
Definition isSpace (s : string) : Prop :=
  s <> EmptyString /\ String_forallb isWhiteSpace s = true.

(** No slash in [s]. *)
Definition slashFree (s : string) : Prop :=
  String_forallb (fun c => negb (Ascii.eqb c "/")) s = true.

(** The resources of one dataset whose tables are known, for a URL
    constructor that gives [href]. *)
Definition resourcesOf (href : string -> string) (datasetId : string) (tables : list string)
  : list Resource :=
  map (fun tableId =>
         {| uri := href (datasetId ++ "/" ++ tableId ++ "/" ++ SCHEMA_PATH)%string;
            mimeType := "application/json";
            name := (dquote ++ datasetId ++ "." ++ tableId ++ dquote
                     ++ " table schema")%string |})
      tables.

(** The tables of a dataset that can be listed. *)
Definition tablesOf (dataset : Dataset) : list string :=
  match getTables dataset with
  | Returned tables => tables
  | Thrown _ => []
  end.

(** Sample datasets. *)
Definition salesDataset : Dataset :=
  {| dataset_id := "sales"; getTables := Returned ["orders"; "customers"] |}.
Definition logsDataset : Dataset :=
  {| dataset_id := "logs"; getTables := Returned ["events"] |}.
Definition lockedDataset : Dataset :=
  {| dataset_id := "locked"; getTables := Thrown (Error "access denied") |}.

(** A URL constructor for the base [bigquery://my-project]. *)
Definition sampleHref (relative : string) : string :=
  ("bigquery://my-project/" ++ relative)%string.

(** The path of a URL under that base; other texts are no URLs. *)
Definition samplePathname (u : string) : outcome string :=
  if String.prefix "bigquery://my-project/" u
  then Returned (substring 21 (String.length u - 21) u)
  else Thrown (Error "Invalid URL").
End TextVocabulary.

(** ** Vocabulary of the search *)

Module SearchVocabulary.
Import VectorStore Vocabulary.

(** The search started in state [s] runs its query and fetches [rows]: the
    initializer returns, a table handle is held, the query embedding [q] is
    not empty, and the query, limited to [topN] and with the filter given,
    answers with [rows]. *)
Definition fetches (W : Collaborators) (s : State) (q : list number) (topN : Z)
           (filter : option string) (rows : list SearchResultItem) : Prop :=
  fst (initializeVectorStore W s) = Returned tt
  /\ q <> []
  /\ exists tbl,
      table (snd (initializeVectorStore W s)) = Some tbl
      /\ search W tbl q topN (whereClause filter) = Returned rows.

(** The score a row counts with: its score, and zero when the score is
    missing or is no number. *)
Definition countedScore (r : SearchResultItem) : number :=
  match score r with
  | None | Some NaN => Num 0
  | Some n => n
  end.


(** Two items with a low and a high score. *)
Definition rowLow : SearchResultItem :=
  sampleRow "c" "barely related" (Some (Num (2 # 10))) (DateObject (Some 3000)).
Definition rowHigh : SearchResultItem :=
  sampleRow "d" "closely related" (Some (Num (95 # 100))) (DateObject (Some 3000)).
End SearchVocabulary.

(** * Properties *)

(** ** Maps in insertion order *)

Section MapFacts.
Context {V : Type}.
Implicit Types (m : JsMap V) (k : string) (v : V).

Lemma Map_get_set_same m k v : Map_get (Map_set m k v) k = Some v.
Proof.
  induction m as [|[k' v'] m IH]; simpl.
  - now rewrite String.eqb_refl.
  - destruct (String.eqb k k') eqn:E; simpl.
    + now rewrite String.eqb_refl.
    + now rewrite E.
Qed.

Lemma Map_get_set_other m k k' v :
  k' <> k -> Map_get (Map_set m k v) k' = Map_get m k'.
Proof.
  intros Hne. induction m as [|[k0 v0] m IH]; simpl.
  - destruct (String.eqb_spec k' k); [contradiction | reflexivity].
  - destruct (String.eqb_spec k k0) as [->|Hk]; simpl.
    + destruct (String.eqb_spec k' k0); [contradiction | reflexivity].
    + now rewrite IH.
Qed.

Lemma Map_has_In m k : Map_has m k = true <-> In k (Map_keys m).
Proof.
  unfold Map_has. induction m as [|[k' v'] m IH]; simpl.
  - split; [discriminate | tauto].
  - destruct (String.eqb_spec k k') as [->|Hk].
    + split; auto.
    + rewrite IH. split; [auto | intros [H|H]; [congruence | exact H]].
Qed.

Lemma Map_keys_set m k v :
  Map_keys (Map_set m k v) = if Map_has m k then Map_keys m else Map_keys m ++ [k].
Proof.
  unfold Map_has. induction m as [|[k' v'] m IH]; simpl; [reflexivity|].
  destruct (String.eqb_spec k k') as [->|Hk]; simpl; [reflexivity|].
  rewrite IH. now destruct (Map_get m k).
Qed.

Lemma Map_keys_set_In m k v k' :
  In k' (Map_keys (Map_set m k v)) <-> In k' (Map_keys m) \/ k' = k.
Proof.
  rewrite Map_keys_set. destruct (Map_has m k) eqn:E.
  - apply Map_has_In in E. split; [auto | intros [H| ->]; assumption].
  - rewrite in_app_iff. simpl. intuition.
Qed.

Lemma Map_set_NoDup m k v : NoDup (Map_keys m) -> NoDup (Map_keys (Map_set m k v)).
Proof.
  intros Hnd. rewrite Map_keys_set. destruct (Map_has m k) eqn:E; [exact Hnd|].
  apply NoDup_app; [exact Hnd | repeat constructor; simpl; tauto |].
  intros x Hx [<-|[]]. apply Map_has_In in Hx. congruence.
Qed.

Lemma Map_set_In m k v e :
  In e (Map_set m k v) -> In e m \/ e = (k, v).
Proof.
  induction m as [|[k' v'] m IH]; simpl.
  - intros [<-|[]]. now right.
  - destruct (String.eqb k k'); simpl.
    + intros [<-|H]; auto.
    + intros [<-|H]; auto. destruct (IH H); auto.
Qed.

Lemma Map_get_entry m k v :
  NoDup (Map_keys m) -> In (k, v) m -> Map_get m k = Some v.
Proof.
  induction m as [|[k' v'] m IH]; simpl; [tauto|].
  intros Hnd [Heq|Hin].
  - inversion Heq; subst. now rewrite String.eqb_refl.
  - inversion Hnd as [|? ? Hnotin Hnd']; subst.
    destruct (String.eqb_spec k k') as [->|Hk].
    + exfalso. apply Hnotin. change (In (fst (k', v)) (map fst m)). now apply in_map.
    + now apply IH.
Qed.

Lemma Map_get_Some_In m k v : Map_get m k = Some v -> In (k, v) m.
Proof.
  induction m as [|[k' v'] m IH]; simpl; [discriminate|].
  destruct (String.eqb_spec k k') as [->|Hk].
  - intros [= ->]. now left.
  - intros H. right. now apply IH.
Qed.
End MapFacts.

(** ** De-duplication *)

Module DedupFacts.
Import VectorStore Vocabulary.

Section WithParser.
Variable Date_parse : string -> Date.

Lemma Date_gt_earlier a b : Date_gt a b = true <-> Date_earlier b a.
Proof.
  destruct a as [x|], b as [y|]; simpl; try (split; [discriminate | tauto]).
  apply Z.ltb_lt.
Qed.

Lemma dedupStep_cases m item :
  dedupStep Date_parse m item = m /\ Map_has m (id item) = true
  \/ dedupStep Date_parse m item = Map_set m (id item) item.
Proof.
  unfold dedupStep, Map_has.
  destruct (truthy (insert_timestamp item)).
  - destruct (Map_get m (id item)) as [e|]; [|now right].
    destruct (truthy (insert_timestamp e)); simpl; [|now right].
    destruct (Date_gt _ _); [now right | now left].
  - destruct (Map_get m (id item)); simpl; [now left | now right].
Qed.

Lemma Map_set_keyed m item : keyed m -> keyed (Map_set m (id item) item).
Proof.
  intros [Hnd Hall]. split; [now apply Map_set_NoDup|].
  apply Forall_forall. intros e He.
  destruct (Map_set_In _ _ _ _ He) as [Hin|Heq]; [|now rewrite Heq].
  revert e Hin He. rewrite Forall_forall in Hall. intros e Hin _. now apply Hall.
Qed.

Lemma dedupStep_keyed m item : keyed m -> keyed (dedupStep Date_parse m item).
Proof.
  intros H. destruct (dedupStep_cases m item) as [[-> _]| ->];
    [exact H | now apply Map_set_keyed].
Qed.

Lemma fold_dedupStep_keyed rows m : keyed m -> keyed (fold_left (dedupStep Date_parse) rows m).
Proof.
  revert m. induction rows as [|r rows IH]; simpl; intros m H; [exact H|].
  apply IH. now apply dedupStep_keyed.
Qed.

Lemma latestById_keyed rows : keyed (latestById Date_parse rows).
Proof. apply fold_dedupStep_keyed. split; constructor. Qed.

Lemma keyed_value_get m r : keyed m -> In r (Map_values m) -> Map_get m (id r) = Some r.
Proof.
  intros [Hnd Hall] Hin. unfold Map_values in Hin.
  apply in_map_iff in Hin. destruct Hin as [[k v] [Heq Hin]]. simpl in Heq. subst v.
  apply Map_get_entry; [exact Hnd|].
  rewrite Forall_forall in Hall. specialize (Hall _ Hin). simpl in Hall. now subst k.
Qed.

Lemma dedupStep_keys m item k :
  In k (Map_keys (dedupStep Date_parse m item)) <-> In k (Map_keys m) \/ k = id item.
Proof.
  destruct (dedupStep_cases m item) as [[-> Hhas]| ->].
  - apply Map_has_In in Hhas. split; [auto | intros [H| ->]; assumption].
  - apply Map_keys_set_In.
Qed.

Lemma fold_dedupStep_keys rows m k :
  In k (Map_keys (fold_left (dedupStep Date_parse) rows m))
  <-> In k (Map_keys m) \/ In k (map id rows).
Proof.
  revert m. induction rows as [|r rows IH]; simpl; intros m; [tauto|].
  rewrite IH, dedupStep_keys. intuition.
Qed.

Lemma dedupStep_settles m r T : hasInsertTime Date_parse r T -> settled Date_parse (id r) T (dedupStep Date_parse m r).
Proof.
  intros [Ht Hd]. unfold dedupStep. rewrite Ht.
  assert (Hset : settled Date_parse (id r) T (Map_set m (id r) r)).
  { exists r. rewrite Map_get_set_same, Ht, Hd. simpl. now rewrite Z.ltb_irrefl. }
  destruct (Map_get m (id r)) as [e|] eqn:Hget; [|exact Hset].
  destruct (truthy (insert_timestamp e)) eqn:He; simpl; [|exact Hset].
  destruct (Date_gt _ _) eqn:Hgt; [exact Hset|].
  exists e. rewrite Hd in Hgt. auto.
Qed.

Lemma dedupStep_settled a T m item : settled Date_parse a T m -> settled Date_parse a T (dedupStep Date_parse m item).
Proof.
  intros (e & Hget & He & Hle).
  destruct (String.eqb_spec a (id item)) as [->|Hne].
  - unfold dedupStep, Map_has. rewrite Hget, He. simpl.
    destruct (truthy (insert_timestamp item)) eqn:Hi; [|now exists e].
    destruct (Date_gt (toDate Date_parse (insert_timestamp item)) _) eqn:Hgt; [|now exists e].
    exists item. rewrite Map_get_set_same, Hi. repeat split.
    destruct (toDate Date_parse (insert_timestamp item)) as [x|], (toDate Date_parse (insert_timestamp e)) as [y|];
      simpl in *; try discriminate.
    apply Z.ltb_lt in Hgt. apply Z.ltb_ge in Hle. apply Z.ltb_ge. lia.
  - destruct (dedupStep_cases m item) as [[-> _]| ->]; [now exists e|].
    exists e. now rewrite Map_get_set_other.
Qed.

Lemma fold_dedupStep_settled a T rows m :
  settled Date_parse a T m -> settled Date_parse a T (fold_left (dedupStep Date_parse) rows m).
Proof.
  revert m. induction rows as [|r rows IH]; simpl; intros m H; [exact H|].
  apply IH. now apply dedupStep_settled.
Qed.

Lemma latestById_settled rows r T :
  In r rows -> hasInsertTime Date_parse r T -> settled Date_parse (id r) T (latestById Date_parse rows).
Proof.
  intros Hin Hr. apply in_split in Hin. destruct Hin as (l1 & l2 & ->).
  unfold latestById. rewrite fold_left_app. simpl.
  apply fold_dedupStep_settled. now apply dedupStep_settles.
Qed.

Lemma dedupStep_versioned a m item : versioned a m -> versioned a (dedupStep Date_parse m item).
Proof.
  intros (e & Hget & He).
  destruct (String.eqb_spec a (id item)) as [->|Hne].
  - unfold dedupStep, Map_has. rewrite Hget, He. simpl.
    destruct (truthy (insert_timestamp item)) eqn:Hi; [|now exists e].
    destruct (Date_gt _ _); [|now exists e].
    exists item. now rewrite Map_get_set_same.
  - destruct (dedupStep_cases m item) as [[-> _]| ->]; [now exists e|].
    exists e. now rewrite Map_get_set_other.
Qed.

Lemma dedupStep_versions m r :
  truthy (insert_timestamp r) = true -> versioned (id r) (dedupStep Date_parse m r).
Proof.
  intros Ht. unfold dedupStep. rewrite Ht.
  assert (Hset : versioned (id r) (Map_set m (id r) r))
    by (exists r; now rewrite Map_get_set_same).
  destruct (Map_get m (id r)) as [e|] eqn:Hget; [|exact Hset].
  destruct (truthy (insert_timestamp e)) eqn:He; simpl; [|exact Hset].
  destruct (Date_gt _ _); [exact Hset | now exists e].
Qed.

Lemma latestById_versioned rows r :
  In r rows -> truthy (insert_timestamp r) = true -> versioned (id r) (latestById Date_parse rows).
Proof.
  intros Hin Hr. apply in_split in Hin. destruct Hin as (l1 & l2 & ->).
  unfold latestById. rewrite fold_left_app. simpl.
  generalize (dedupStep_versions (fold_left (dedupStep Date_parse) l1 []) r Hr).
  generalize (dedupStep Date_parse (fold_left (dedupStep Date_parse) l1 []) r). 
  induction l2 as [|x l2 IH]; simpl; intros m H; [exact H|].
  apply IH. now apply dedupStep_versioned.
Qed.
End WithParser.
End DedupFacts.

(** ** Sorting and slicing *)

Section ArrayFacts.
Context {A : Type}.
Implicit Types (l : list A) (f : A -> A -> number).

Lemma sort_insert_perm f x l : Permutation (x :: l) (sort_insert f x l).
Proof.
  induction l as [|y l IH]; simpl; [reflexivity|].
  destruct (SortCompare f x y); try reflexivity.
  etransitivity; [apply perm_swap|]. now constructor.
Qed.

Lemma Array_sort_perm f l : Permutation l (Array_sort f l).
Proof.
  induction l as [|x l IH]; simpl; [constructor|].
  etransitivity; [|apply sort_insert_perm]. now constructor.
Qed.

Lemma firstn_incl k l x : In x (firstn k l) -> In x l.
Proof.
  intros H. rewrite <- (firstn_skipn k l). apply in_or_app. now left.
Qed.

Lemma Array_slice0_In l n x : In x (Array_slice0 l n) -> In x l.
Proof. apply firstn_incl. Qed.

Lemma Array_slice0_all l n : Z.of_nat (List.length l) <= n -> Array_slice0 l n = l.
Proof.
  unfold Array_slice0. intros H. destruct (n <? 0) eqn:E.
  - apply Z.ltb_lt in E. lia.
  - rewrite Z.min_r by lia. rewrite Nat2Z.id. apply firstn_all.
Qed.

Lemma Array_slice0_length_le l n :
  0 <= n -> Z.of_nat (List.length (Array_slice0 l n)) <= n.
Proof.
  unfold Array_slice0. intros H. destruct (n <? 0) eqn:E.
  - apply Z.ltb_lt in E. lia.
  - rewrite length_firstn. lia.
Qed.

Lemma Array_slice0_length_bound l n :
  (List.length (Array_slice0 l n) <= List.length l)%nat.
Proof. unfold Array_slice0. rewrite length_firstn. lia. Qed.

Lemma StronglySorted_firstn (R : A -> A -> Prop) k l :
  StronglySorted R l -> StronglySorted R (firstn k l).
Proof.
  revert k. induction l as [|x l IH]; intros [|k] H; simpl; try constructor.
  - apply IH. now inversion H.
  - inversion H as [|? ? _ Hall]; subst. rewrite Forall_forall in *.
    intros y Hy. apply Hall. now apply firstn_incl in Hy.
Qed.

Section Sorted.
Variable f : A -> A -> number.
Variable R : A -> A -> Prop.
Hypothesis R_trans : forall x y z, R x y -> R y z -> R x z.
Hypothesis moved_behind : forall x y, SortCompare f x y = Gt -> R y x.
Hypothesis kept_before : forall x y, SortCompare f x y <> Gt -> R x y.

Lemma sort_insert_sorted x l :
  StronglySorted R l -> StronglySorted R (sort_insert f x l).
Proof.
  induction l as [|y l IH]; simpl; intros H.
  - repeat constructor.
  - inversion H as [|? ? Hl Hall]; subst.
    destruct (SortCompare f x y) eqn:E.
    + constructor; [exact H|]. assert (R x y) by (apply kept_before; congruence).
      constructor; [assumption|]. eapply Forall_impl; [|exact Hall]. eauto.
    + constructor; [exact H|]. assert (R x y) by (apply kept_before; congruence).
      constructor; [assumption|]. eapply Forall_impl; [|exact Hall]. eauto.
    + constructor; [now apply IH|].
      rewrite Forall_forall in *. intros z Hz.
      apply (Permutation_in z (Permutation_sym (sort_insert_perm f x l))) in Hz.
      destruct Hz as [<-|Hz]; [now apply moved_behind | now apply Hall].
Qed.

Lemma Array_sort_sorted l : StronglySorted R (Array_sort f l).
Proof.
  induction l as [|x l IH]; simpl; [constructor | now apply sort_insert_sorted].
Qed.
End Sorted.
End ArrayFacts.

(** ** The order of scores *)

Module ScoreFacts.
Import VectorStore Vocabulary.

Lemma number_le_trans a b c : number_le a b -> number_le b c -> number_le a c.
Proof.
  destruct a, b, c; simpl; try tauto. apply Qle_trans.
Qed.

Lemma scoreOrZero_not_NaN a : scoreOrZero a <> NaN.
Proof.
  unfold scoreOrZero. destruct (score a) as [[| | |q]|]; simpl; try discriminate.
  destruct (negb (Qeq_bool q 0)); discriminate.
Qed.

Lemma descScore_trans x y z : descScore x y -> descScore y z -> descScore x z.
Proof. unfold descScore. intros H1 H2. eapply number_le_trans; eassumption. Qed.

Lemma compareScore_moved_behind x y :
  SortCompare compareScore x y = Gt -> descScore y x.
Proof.
  unfold SortCompare, compareScore, descScore.
  generalize (scoreOrZero_not_NaN x) (scoreOrZero_not_NaN y).
  destruct (scoreOrZero x) as [| | |p], (scoreOrZero y) as [| | |q];
    simpl; try tauto; try discriminate.
  intros _ _ H. apply Qgt_alt in H. lra.
Qed.

Lemma compareScore_kept_before x y :
  SortCompare compareScore x y <> Gt -> descScore x y.
Proof.
  unfold SortCompare, compareScore, descScore.
  generalize (scoreOrZero_not_NaN x) (scoreOrZero_not_NaN y).
  destruct (scoreOrZero x) as [| | |p], (scoreOrZero y) as [| | |q];
    simpl; try tauto; try congruence.
  intros _ _ H. apply Qle_alt in H. lra.
Qed.

Lemma sorted_by_score l : StronglySorted descScore (Array_sort compareScore l).
Proof.
  apply Array_sort_sorted.
  - exact descScore_trans.
  - exact compareScore_moved_behind.
  - exact compareScore_kept_before.
Qed.
End ScoreFacts.

(** ** The result of a search

    [dedupedResults] embeds lines 360 to 391; [searchLongTermMemory] returns
    it when the query is run and gives rows ([search_returns_post_processed]),
    and the properties are stated of what [searchLongTermMemory] returns. *)

Module SearchProperties.
Import VectorStore Vocabulary SearchVocabulary DedupFacts ScoreFacts.

Section WithParser.
Variable Date_parse : string -> Date.

Lemma dedupedResults_In rows topN r :
  In r (dedupedResults Date_parse rows topN) ->
  Map_get (latestById Date_parse rows) (id r) = Some r.
Proof.
  unfold dedupedResults. intros H. apply Array_slice0_In in H.
  apply (Permutation_in r (Permutation_sym (Array_sort_perm compareScore _))) in H.
  apply keyed_value_get; [apply latestById_keyed | exact H].
Qed.

Lemma dedupedResults_single rows topN r :
  latestById Date_parse rows = [(id r, r)] -> 1 <= topN ->
  dedupedResults Date_parse rows topN = [r].
Proof.
  intros Hm Hn. unfold dedupedResults. rewrite Hm. simpl.
  apply Array_slice0_all. simpl. lia.
Qed.

Lemma latestById_first r : latestById Date_parse [r] = [(id r, r)].
Proof.
  unfold latestById, dedupStep, Map_has. simpl.
  now destruct (truthy (insert_timestamp r)).
Qed.

Lemma latestById_pair r1 r2 :
  latestById Date_parse [r1; r2] = dedupStep Date_parse [(id r1, r1)] r2.
Proof.
  change (latestById Date_parse [r1; r2])
    with (dedupStep Date_parse (latestById Date_parse [r1]) r2).
  now rewrite latestById_first.
Qed.
End WithParser.

(** The rule for a row with an insertion timestamp, and what it means for
    the post-processing of fetched rows. *)
Lemma versioned_row_policy (Date_parse : string -> Date) :
  (forall m item,
      truthy (insert_timestamp item) = true ->
      let replaces :=
        Map_get m (id item) = None
        \/ exists existing,
            Map_get m (id item) = Some existing
            /\ (truthy (insert_timestamp existing) = false
                \/ Date_earlier (toDate Date_parse (insert_timestamp existing))
                                (toDate Date_parse (insert_timestamp item))) in
      (replaces -> dedupStep Date_parse m item = Map_set m (id item) item)
      /\ (~ replaces -> dedupStep Date_parse m item = m))
  /\ (forall rows r1 r2 T1 T2 topN,
         In r1 rows -> In r2 rows -> id r1 = id r2 ->
         hasInsertTime Date_parse r1 T1 -> hasInsertTime Date_parse r2 T2 -> T1 < T2 ->
         ~ In r1 (dedupedResults Date_parse rows topN))
  /\ (forall r1 r2 T1 T2 topN,
         id r1 = id r2 ->
         hasInsertTime Date_parse r1 T1 -> hasInsertTime Date_parse r2 T2 -> T1 < T2 ->
         1 <= topN ->
         dedupedResults Date_parse [r1; r2] topN = [r2]
         /\ dedupedResults Date_parse [r2; r1] topN = [r2]).
Proof.
  split; [|split].
  - intros m item Hi replaces. unfold dedupStep. rewrite Hi. subst replaces.
    destruct (Map_get m (id item)) as [e|] eqn:Hget.
    + destruct (truthy (insert_timestamp e)) eqn:He; simpl.
      * destruct (Date_gt _ _) eqn:Hgt.
        -- split; [reflexivity|]. intros Hno. exfalso. apply Hno. right.
           exists e. split; [reflexivity|]. right. now apply Date_gt_earlier.
        -- split; [|reflexivity]. intros [Hnone|(e' & [= <-] & [Hf|Hearlier])];
             [discriminate | congruence |].
           apply Date_gt_earlier in Hearlier. congruence.
      * split; [reflexivity|]. intros Hno. exfalso. apply Hno. right.
        exists e. auto.
    + split; [reflexivity|]. intros Hno. exfalso. apply Hno. now left.
  - intros rows r1 r2 T1 T2 topN Hin1 Hin2 Hid [Ht1 Hd1] H2 Hlt Hres.
    apply dedupedResults_In in Hres.
    destruct (latestById_settled Date_parse rows r2 T2 Hin2 H2) as (e & Hget & _ & Hle).
    rewrite <- Hid, Hres in Hget. injection Hget as <-.
    rewrite Hd1 in Hle. simpl in Hle. apply Z.ltb_ge in Hle. lia.
  - intros r1 r2 T1 T2 topN Hid [Ht1 Hd1] [Ht2 Hd2] Hlt Hn. split.
    + apply dedupedResults_single; [|exact Hn]. rewrite latestById_pair.
      unfold dedupStep. rewrite Ht2, <- Hid. simpl. rewrite String.eqb_refl, Ht1. simpl.
      rewrite Hd1, Hd2. simpl.
      destruct (Z.ltb_spec T1 T2); [reflexivity | lia].
    + apply dedupedResults_single; [|exact Hn]. rewrite latestById_pair.
      unfold dedupStep. rewrite Ht1, Hid. simpl. rewrite String.eqb_refl, Ht2. simpl.
      rewrite Hd1, Hd2. simpl.
      destruct (Z.ltb_spec T2 T1); [lia | reflexivity].
Qed.

(** The rule for a row without insertion timestamp, and what it means for
    the post-processing of fetched rows. *)
Lemma legacy_row_policy (Date_parse : string -> Date) :
  (forall m item,
      truthy (insert_timestamp item) = false ->
      (Map_has m (id item) = false ->
       dedupStep Date_parse m item = Map_set m (id item) item)
      /\ (Map_has m (id item) = true -> dedupStep Date_parse m item = m))
  /\ (forall rows legacy current topN,
         In legacy rows -> In current rows -> id legacy = id current ->
         truthy (insert_timestamp legacy) = false ->
         truthy (insert_timestamp current) = true ->
         ~ In legacy (dedupedResults Date_parse rows topN))
  /\ (forall legacy current topN,
         id legacy = id current ->
         truthy (insert_timestamp legacy) = false ->
         truthy (insert_timestamp current) = true ->
         1 <= topN ->
         dedupedResults Date_parse [legacy; current] topN = [current]
         /\ dedupedResults Date_parse [current; legacy] topN = [current]).
Proof.
  split; [|split].
  - intros m item Hi. unfold dedupStep. rewrite Hi.
    split; intros ->; reflexivity.
  - intros rows legacy current topN Hin1 Hin2 Hid Hl Hc Hres.
    apply dedupedResults_In in Hres.
    destruct (latestById_versioned Date_parse rows current Hin2 Hc) as (e & Hget & He).
    rewrite <- Hid, Hres in Hget. injection Hget as <-. congruence.
  - intros legacy current topN Hid Hl Hc Hn. split.
    + apply dedupedResults_single; [|exact Hn]. rewrite latestById_pair.
      unfold dedupStep. rewrite Hc, <- Hid. simpl. rewrite String.eqb_refl, Hl. reflexivity.
    + apply dedupedResults_single; [|exact Hn]. rewrite latestById_pair.
      unfold dedupStep, Map_has. rewrite Hl, Hid. simpl. now rewrite String.eqb_refl.
Qed.

(** C9. When the row at hand and the entry of its id both carry an insertion
    timestamp and the two dates are equal, the map is left as it is: the row
    met first is kept. A fetch of two such rows gives the first one alone. *)
Theorem equal_timestamps_keep_first (Date_parse : string -> Date) :
  (forall m item existing,
      truthy (insert_timestamp item) = true ->
      Map_get m (id item) = Some existing ->
      truthy (insert_timestamp existing) = true ->
      toDate Date_parse (insert_timestamp item)
      = toDate Date_parse (insert_timestamp existing) ->
      dedupStep Date_parse m item = m)
  /\ (forall first second topN,
         id first = id second ->
         truthy (insert_timestamp first) = true ->
         truthy (insert_timestamp second) = true ->
         toDate Date_parse (insert_timestamp first)
         = toDate Date_parse (insert_timestamp second) ->
         1 <= topN ->
         dedupedResults Date_parse [first; second] topN = [first]).
Proof.
  assert (Hirr : forall d, Date_gt d d = false)
    by (intros [t|]; simpl; [apply Z.ltb_irrefl | reflexivity]).
  split.
  - intros m item e Hi Hget He Heq. unfold dedupStep.
    rewrite Hi, Hget, He, Heq. simpl. now rewrite Hirr.
  - intros r1 r2 topN Hid H1 H2 Heq Hn.
    apply dedupedResults_single; [|exact Hn]. rewrite latestById_pair.
    unfold dedupStep. rewrite H2, <- Hid. simpl. rewrite String.eqb_refl, H1. simpl.
    now rewrite Heq, Hirr.
Qed.

Lemma equal_timestamps_keep_first_witness :
  dedupStep noParse [("a", rowOld)] rowTwin = [("a", rowOld)]
  /\ dedupedResults noParse [rowOld; rowTwin] 3 = [rowOld].
Proof.
  destruct (equal_timestamps_keep_first noParse) as (Hstep & Hpair).
  split.
  - apply (Hstep [("a", rowOld)] rowTwin rowOld); reflexivity.
  - apply (Hpair rowOld rowTwin 3); try reflexivity; lia.
Defined.


Lemma latestById_count (Date_parse : string -> Date) rows :
  List.length (Map_values (latestById Date_parse rows)) = distinctIds rows.
Proof.
  unfold Map_values, distinctIds. rewrite length_map.
  rewrite <- (length_map fst). apply Permutation_length, NoDup_Permutation.
  - apply (latestById_keyed Date_parse rows).
  - apply NoDup_nodup.
  - intros k. rewrite nodup_In. unfold latestById.
    change (map fst (fold_left (dedupStep Date_parse) rows []))
      with (Map_keys (fold_left (dedupStep Date_parse) rows [])).
    rewrite fold_dedupStep_keys. simpl. tauto.
Qed.

(** The length of the post-processed rows. *)
Lemma post_processing_length (Date_parse : string -> Date) (rows : list SearchResultItem) :
  List.length (Map_values (latestById Date_parse rows)) = distinctIds rows
  /\ (forall topN,
         Z.of_nat (distinctIds rows) <= topN ->
         List.length (dedupedResults Date_parse rows topN) = distinctIds rows)
  /\ (forall topN,
         0 <= topN ->
         Z.of_nat (List.length (dedupedResults Date_parse rows topN)) <= topN)
  /\ (List.length rows = 3%nat -> distinctIds rows = 2%nat ->
      List.length (dedupedResults Date_parse rows 3) = 2%nat).
Proof.
  assert (Hall : forall topN,
             Z.of_nat (distinctIds rows) <= topN ->
             List.length (dedupedResults Date_parse rows topN) = distinctIds rows).
  { intros topN Hn. unfold dedupedResults.
    rewrite Array_slice0_all;
      rewrite <- (Permutation_length (Array_sort_perm compareScore _)), latestById_count;
      [reflexivity | exact Hn]. }
  split; [apply latestById_count | split; [exact Hall | split]].
  - intros topN Hn. apply Array_slice0_length_le, Hn.
  - intros _ H2. rewrite (Hall 3); [exact H2 | rewrite H2; lia].
Qed.

(** A negative [topN] is no count: [slice] then counts from the end. *)
Example negative_topN_drops_from_the_end :
  dedupedResults noParse [rowOld; rowOther] (-1) = [rowOld].
Proof. reflexivity. Qed.

(** The scores decide the order, not the order of the fetch. *)
Example sorted_example :
  dedupedResults noParse [rowOther; rowNew; rowOld] 3 = [rowNew; rowOther]
  /\ dedupedResults noParse [rowOld; rowNew; rowOther] 3 = [rowNew; rowOther].
Proof. split; reflexivity. Qed.

(** *** What searchLongTermMemory returns *)

(** When the query is run and fetches rows, the search returns their
    post-processing. *)
Lemma search_returns_post_processed W s q topN filter rows :
  fetches W s q topN filter rows ->
  fst (searchLongTermMemory W (Some q) topN filter s)
  = Returned (dedupedResults (Date_parse W) rows topN).
Proof.
  intros (Hi & Hq & tbl & Ht & Hs).
  unfold searchLongTermMemory, bind, try_catch, ret, await, console_write, get_table.
  simpl. destruct (initializeVectorStore W s) as [[u|e] s1]; simpl in *; [|discriminate].
  rewrite Ht. destruct q as [|x q]; [contradiction|]. simpl. now rewrite Hs.
Qed.

(** In a world with an empty database, a search from the initial state
    fetches the rows of that world. *)
Ltac fetched :=
  split; [reflexivity | split; [discriminate | exists (TableHandle 1); split; reflexivity]].

Lemma scoreOrZero_counted r :
  number_le (scoreOrZero r) (countedScore r) /\ number_le (countedScore r) (scoreOrZero r).
Proof.
  unfold scoreOrZero, countedScore.
  destruct (score r) as [[| | |x]|]; simpl; try (split; (exact I || apply Qle_refl)).
  destruct (Qeq_bool x 0) eqn:E; simpl; [|split; apply Qle_refl].
  apply Qeq_bool_iff in E. rewrite E. split; apply Qle_refl.
Qed.



(** C1. A row with an insertion timestamp is stored under its id exactly
    when the id has no entry yet, or the entry has no insertion timestamp, or
    the entry's insertion timestamp is strictly earlier; otherwise the map is
    left as it is. Hence, when two fetched rows share an id and carry the
    times [T1 < T2], searchLongTermMemory returns a sequence without the row
    of [T1], wherever the two stand among the fetched rows, and for a fetch of
    just these two rows, in either order, it returns the row of [T2] alone. *)
Theorem versioned_row_replaces_older :
  (forall parse m item,
      truthy (insert_timestamp item) = true ->
      let replaces :=
        Map_get m (id item) = None
        \/ exists existing,
            Map_get m (id item) = Some existing
            /\ (truthy (insert_timestamp existing) = false
                \/ Date_earlier (toDate parse (insert_timestamp existing))
                                (toDate parse (insert_timestamp item))) in
      (replaces -> dedupStep parse m item = Map_set m (id item) item)
      /\ (~ replaces -> dedupStep parse m item = m))
  /\ (forall W s q topN filter rows r1 r2 T1 T2,
         fetches W s q topN filter rows ->
         In r1 rows -> In r2 rows -> id r1 = id r2 ->
         hasInsertTime (Date_parse W) r1 T1 -> hasInsertTime (Date_parse W) r2 T2 ->
         T1 < T2 ->
         exists out,
           fst (searchLongTermMemory W (Some q) topN filter s) = Returned out
           /\ ~ In r1 out)
  /\ (forall W s q topN filter r1 r2 T1 T2,
         id r1 = id r2 ->
         hasInsertTime (Date_parse W) r1 T1 -> hasInsertTime (Date_parse W) r2 T2 ->
         T1 < T2 -> 1 <= topN ->
         (fetches W s q topN filter [r1; r2] ->
          fst (searchLongTermMemory W (Some q) topN filter s) = Returned [r2])
         /\ (fetches W s q topN filter [r2; r1] ->
             fst (searchLongTermMemory W (Some q) topN filter s) = Returned [r2])).
Proof.
  split; [|split].
  - intros parse. apply (versioned_row_policy parse).
  - intros W s q topN filter rows r1 r2 T1 T2 Hf H1 H2 Hid Ht1 Ht2 Hlt.
    exists (dedupedResults (Date_parse W) rows topN).
    split; [now apply search_returns_post_processed|].
    now apply (proj1 (proj2 (versioned_row_policy (Date_parse W)))) with r2 T1 T2.
  - intros W s q topN filter r1 r2 T1 T2 Hid Ht1 Ht2 Hlt Hn.
    destruct (proj2 (proj2 (versioned_row_policy (Date_parse W)))
                    r1 r2 T1 T2 topN Hid Ht1 Ht2 Hlt Hn) as [H12 H21].
    split; intros Hf; rewrite (search_returns_post_processed _ _ _ _ _ _ Hf); congruence.
Qed.

Lemma versioned_row_replaces_older_witness :
  dedupStep noParse [("a", rowOld)] rowNew = [("a", rowNew)]
  /\ (exists out,
         fst (searchLongTermMemory (freshWorld [rowNew; rowOther; rowOld])
                                   (Some [Num 1]) 2 None initialState) = Returned out
         /\ ~ In rowOld out)
  /\ fst (searchLongTermMemory (freshWorld [rowOld; rowNew]) (Some [Num 1]) 3 None initialState)
     = Returned [rowNew]
  /\ fst (searchLongTermMemory (freshWorld [rowNew; rowOld]) (Some [Num 1]) 3 None initialState)
     = Returned [rowNew].
Proof.
  destruct versioned_row_replaces_older as (Hstep & Hnever & Hpair).
  split; [|split; [|split]].
  - apply (Hstep noParse [("a", rowOld)] rowNew); [reflexivity|].
    right. exists rowOld. split; [reflexivity|]. right. simpl. lia.
  - apply (Hnever (freshWorld [rowNew; rowOther; rowOld]) initialState [Num 1] 2 None
                  [rowNew; rowOther; rowOld] rowOld rowNew 1000 2000);
      try (simpl; auto; fail); try (split; reflexivity); try lia.
    fetched.
  - apply (proj1 (Hpair (freshWorld [rowOld; rowNew]) initialState [Num 1] 3 None
                        rowOld rowNew 1000 2000 eq_refl
                        (conj eq_refl eq_refl) (conj eq_refl eq_refl)
                        ltac:(lia) ltac:(lia))).
    fetched.
  - apply (proj2 (Hpair (freshWorld [rowNew; rowOld]) initialState [Num 1] 3 None
                        rowOld rowNew 1000 2000 eq_refl
                        (conj eq_refl eq_refl) (conj eq_refl eq_refl)
                        ltac:(lia) ltac:(lia))).
    fetched.
Defined.

(** C2. A row without an insertion timestamp is stored only when its id has
    no entry yet and never changes an entry that exists. Hence
    searchLongTermMemory returns a sequence without a fetched legacy row
    whenever a row with an insertion timestamp was fetched for the same id,
    and for a fetch of one legacy and one versioned row of the same id, in
    either order, it returns the versioned row alone. *)
Theorem legacy_row_never_overwrites :
  (forall parse m item,
      truthy (insert_timestamp item) = false ->
      (Map_has m (id item) = false ->
       dedupStep parse m item = Map_set m (id item) item)
      /\ (Map_has m (id item) = true -> dedupStep parse m item = m))
  /\ (forall W s q topN filter rows legacy current,
         fetches W s q topN filter rows ->
         In legacy rows -> In current rows -> id legacy = id current ->
         truthy (insert_timestamp legacy) = false ->
         truthy (insert_timestamp current) = true ->
         exists out,
           fst (searchLongTermMemory W (Some q) topN filter s) = Returned out
           /\ ~ In legacy out)
  /\ (forall W s q topN filter legacy current,
         id legacy = id current ->
         truthy (insert_timestamp legacy) = false ->
         truthy (insert_timestamp current) = true ->
         1 <= topN ->
         (fetches W s q topN filter [legacy; current] ->
          fst (searchLongTermMemory W (Some q) topN filter s) = Returned [current])
         /\ (fetches W s q topN filter [current; legacy] ->
             fst (searchLongTermMemory W (Some q) topN filter s) = Returned [current])).
Proof.
  split; [|split].
  - intros parse. apply (legacy_row_policy parse).
  - intros W s q topN filter rows legacy current Hf H1 H2 Hid Hl Hc.
    exists (dedupedResults (Date_parse W) rows topN).
    split; [now apply search_returns_post_processed|].
    now apply (proj1 (proj2 (legacy_row_policy (Date_parse W)))) with current.
  - intros W s q topN filter legacy current Hid Hl Hc Hn.
    destruct (proj2 (proj2 (legacy_row_policy (Date_parse W)))
                    legacy current topN Hid Hl Hc Hn) as [H12 H21].
    split; intros Hf; rewrite (search_returns_post_processed _ _ _ _ _ _ Hf); congruence.
Qed.

Lemma legacy_row_never_overwrites_witness :
  dedupStep noParse [("a", rowNew)] rowLegacy = [("a", rowNew)]
  /\ (exists out,
         fst (searchLongTermMemory (freshWorld [rowLegacy; rowOther; rowNew])
                                   (Some [Num 1]) 2 None initialState) = Returned out
         /\ ~ In rowLegacy out)
  /\ fst (searchLongTermMemory (freshWorld [rowLegacy; rowNew]) (Some [Num 1]) 3 None
                               initialState)
     = Returned [rowNew]
  /\ fst (searchLongTermMemory (freshWorld [rowNew; rowLegacy]) (Some [Num 1]) 3 None
                               initialState)
     = Returned [rowNew].
Proof.
  destruct legacy_row_never_overwrites as (Hstep & Hnever & Hpair).
  split; [|split; [|split]].
  - apply (Hstep noParse [("a", rowNew)] rowLegacy); reflexivity.
  - apply (Hnever (freshWorld [rowLegacy; rowOther; rowNew]) initialState [Num 1] 2 None
                  [rowLegacy; rowOther; rowNew] rowLegacy rowNew);
      try (simpl; auto; fail); try reflexivity.
    fetched.
  - apply (proj1 (Hpair (freshWorld [rowLegacy; rowNew]) initialState [Num 1] 3 None
                        rowLegacy rowNew eq_refl eq_refl eq_refl ltac:(lia))).
    fetched.
  - apply (proj2 (Hpair (freshWorld [rowNew; rowLegacy]) initialState [Num 1] 3 None
                        rowLegacy rowNew eq_refl eq_refl eq_refl ltac:(lia))).
    fetched.
Defined.



(** The higher score comes first, the row without score last. *)
Example search_sorts_by_score :
  fst (searchLongTermMemory (freshWorld [rowLow; rowOther; rowHigh])
                            (Some [Num 1]) 3 None initialState)
  = Returned [rowHigh; rowLow; rowOther].
Proof. reflexivity. Qed.

(** C4. When the query fetches rows, searchLongTermMemory returns as many
    rows as there are distinct ids among them whenever that number is at most
    [topN]: nothing is added to reach [topN]. For a count [topN] (zero or
    more) it never returns more than [topN] rows, and it never returns more
    rows than there are distinct ids. Three fetched rows with two distinct ids
    give two results for [topN = 3]. *)
Theorem result_length (W : Collaborators) (s : State) (q : list number) (topN : Z)
        (filter : option string) (rows : list SearchResultItem) :
  fetches W s q topN filter rows ->
  exists out,
    fst (searchLongTermMemory W (Some q) topN filter s) = Returned out
    /\ (Z.of_nat (distinctIds rows) <= topN -> List.length out = distinctIds rows)
    /\ (0 <= topN -> Z.of_nat (List.length out) <= topN)
    /\ (List.length out <= distinctIds rows)%nat
    /\ (topN = 3 -> List.length rows = 3%nat -> distinctIds rows = 2%nat ->
        List.length out = 2%nat).
Proof.
  intros Hf. exists (dedupedResults (Date_parse W) rows topN).
  split; [now apply search_returns_post_processed|].
  destruct (post_processing_length (Date_parse W) rows) as (Hcount & Hall & Hcut & Hthree).
  split; [apply Hall | split; [apply Hcut | split]].
  - unfold dedupedResults.
    rewrite <- Hcount,
      (Permutation_length
         (Array_sort_perm compareScore (Map_values (latestById (Date_parse W) rows)))).
    apply Array_slice0_length_bound.
  - intros ->. exact Hthree.
Qed.

Lemma result_length_witness :
  exists out,
    fst (searchLongTermMemory (freshWorld [rowOld; rowOther; rowNew])
                              (Some [Num 1]) 3 None initialState) = Returned out
    /\ (Z.of_nat (distinctIds [rowOld; rowOther; rowNew]) <= 3 ->
        List.length out = distinctIds [rowOld; rowOther; rowNew])
    /\ (0 <= 3 -> Z.of_nat (List.length out) <= 3)
    /\ (List.length out <= distinctIds [rowOld; rowOther; rowNew])%nat
    /\ (3 = 3 -> List.length [rowOld; rowOther; rowNew] = 3%nat ->
        distinctIds [rowOld; rowOther; rowNew] = 2%nat ->
        List.length out = 2%nat).
Proof.
  apply (result_length (freshWorld [rowOld; rowOther; rowNew]) initialState [Num 1] 3 None
                       [rowOld; rowOther; rowNew]).
  fetched.
Defined.

(** Three rows of two ids: two results for [topN = 3], one for [topN = 1]. *)
Example search_length_example :
  fst (searchLongTermMemory (freshWorld [rowOld; rowOther; rowNew])
                            (Some [Num 1]) 3 None initialState)
  = Returned [rowNew; rowOther]
  /\ fst (searchLongTermMemory (freshWorld [rowOld; rowOther; rowNew])
                               (Some [Num 1]) 1 None initialState)
     = Returned [rowNew].
Proof. split; reflexivity. Qed.

End SearchProperties.

(** ** Initialization, writing and searching *)

Module LifecycleFacts.
Import VectorStore Vocabulary.

Ltac run :=
  unfold initializeVectorStore, addOrUpdateMemoryItems, searchLongTermMemory,
    bind, try_catch, ret, throw, await, console_write, console_error_with, get_table,
    get_isInitialized, set_db, set_table, set_isInitialized, new_Date;
  simpl.

Ltac count_calls :=
  unfold creations; simpl; rewrite ?filter_app, ?length_app; simpl; lia.

Lemma init_when_initialized W s :
  isInitialized s = true -> initializeVectorStore W s = (Returned tt, s).
Proof. intros H. run. now rewrite H. Qed.

(** The two ways a first initialization ends. *)
Lemma init_when_uninitialized W s :
  isInitialized s = false ->
  (exists e, initFailure W s e
             /\ fst (initializeVectorStore W s) = Thrown e
             /\ notReady (snd (initializeVectorStore W s)))
  \/ (fst (initializeVectorStore W s) = Returned tt
      /\ isInitialized (snd (initializeVectorStore W s)) = true
      /\ exists c t, db (snd (initializeVectorStore W s)) = Some c
                     /\ table (snd (initializeVectorStore W s)) = Some t).
Proof.
  intros Hs. run. rewrite Hs.
  destruct (connect W (VECTOR_STORE_DIR W)) as [c|e] eqn:Hc; simpl;
    [|left; exists e; repeat split; now apply ConnectFails].
  destruct (tableNames W c) as [names|e] eqn:Hn; simpl;
    [|left; exists e; repeat split; now apply TableNamesFails with c].
  destruct (Array_includes names TABLE_NAME) eqn:Hin; simpl.
  - destruct (openTable W c TABLE_NAME) as [t|e] eqn:Ho; simpl;
      [|left; exists e; repeat split; now apply OpenTableFails with c names].
    right. repeat split. now exists c, t.
  - destruct (getEmbeddings W "schema_init") as [sample|e] eqn:Hg; simpl;
      [|left; exists e; repeat split; now apply GetEmbeddingsFails with c names].
    destruct sample as [[|x sample]|]; simpl;
      try (left; exists EmbeddingUnavailable; repeat split;
           eapply NoDimension; eauto).
    destruct (createTable W c TABLE_NAME _) as [t|e] eqn:Hcr; simpl;
      [|left; exists e; repeat split; now apply CreateTableFails with c names x sample].
    right. repeat split. now exists c, t.
Qed.

Lemma initFailure_deterministic W s e :
  isInitialized s = false -> initFailure W s e ->
  fst (initializeVectorStore W s) = Thrown e.
Proof.
  intros Hs Hf. run. rewrite Hs.
  destruct Hf as [e Hc|c e Hc Hn|c names e Hc Hn Hin Ho|c names e Hc Hn Hin Hg
                 |c names sample Hc Hn Hin Hg Hd|c names x sample e Hc Hn Hin Hg Hcr];
    rewrite Hc; simpl; try reflexivity;
    rewrite Hn; simpl; try reflexivity;
    rewrite Hin; simpl;
    try (rewrite Ho; reflexivity);
    rewrite Hg; simpl; try reflexivity.
  - now destruct Hd as [->| ->].
  - now rewrite Hcr.
Qed.

Lemma init_creations W s :
  (creations (snd (initializeVectorStore W s)) <= creations s + 1)%nat.
Proof.
  run. destruct (isInitialized s); simpl; [unfold creations; lia|].
  destruct (connect W (VECTOR_STORE_DIR W)) as [c|e]; simpl; [|count_calls].
  destruct (tableNames W c) as [names|e]; simpl; [|count_calls].
  destruct (Array_includes names TABLE_NAME); simpl.
  - destruct (openTable W c TABLE_NAME); simpl; count_calls.
  - destruct (getEmbeddings W "schema_init") as [[[|x sample]|]|e]; simpl;
      try count_calls.
    destruct (createTable W c TABLE_NAME _); simpl; count_calls.
Qed.

Lemma init_returns_initialized W s :
  fst (initializeVectorStore W s) = Returned tt ->
  isInitialized (snd (initializeVectorStore W s)) = true.
Proof.
  intros H. destruct (isInitialized s) eqn:Hs.
  - now rewrite init_when_initialized.
  - destruct (init_when_uninitialized W s Hs) as [(e & _ & He & _)|(_ & Hi & _)];
      [congruence | exact Hi].
Qed.

Lemma runInits_when_initialized Ws s :
  isInitialized s = true -> runInits Ws s = s.
Proof.
  induction Ws as [|W Ws IH]; simpl; intros H; [reflexivity|].
  rewrite init_when_initialized by exact H. simpl. now apply IH.
Qed.
End LifecycleFacts.

Module LifecycleProperties.
Import VectorStore Vocabulary LifecycleFacts.

Ltac run_after_init :=
  unfold addOrUpdateMemoryItems, searchLongTermMemory,
    bind, try_catch, ret, throw, await, console_write, get_table;
  simpl.

Lemma mapM_cons {A B} (f : A -> M B) x l s :
  mapM f (x :: l) s
  = match f x s with
    | (Returned y, s1) =>
        match mapM f l s1 with
        | (Returned ys, s2) => (Returned (y :: ys), s2)
        | (Thrown e, s2) => (Thrown e, s2)
        end
    | (Thrown e, s1) => (Thrown e, s1)
    end.
Proof.
  simpl. unfold bind. destruct (f x s) as [[y|e] s1]; [|reflexivity].
  now destruct (mapM f l s1) as [[ys|e] s2].
Qed.

Local Arguments mapM : simpl never.

(** Stamping the rows reads the clock and nothing else. *)
Lemma stamping_returns W data s :
  exists stamped s',
    mapM (withInsertTimestamp W) data s = (Returned stamped, s')
    /\ db s' = db s /\ table s' = table s /\ isInitialized s' = isInitialized s
    /\ calls s' = calls s /\ console s' = console s.
Proof.
  revert s. induction data as [|x data IH]; intros s.
  - exists [], s. repeat split.
  - rewrite mapM_cons.
    assert (Hone : exists y, withInsertTimestamp W x s
                             = (Returned y,
                                {| db := db s; table := table s;
                                   isInitialized := isInitialized s; calls := calls s;
                                   console := console s; ticks := S (ticks s) |}))
      by (eexists; reflexivity).
    destruct Hone as (y & ->).
    match goal with |- context [mapM _ data ?s1] => destruct (IH s1) as (st & s' & -> & H) end.
    simpl in H. eexists _, s'. split; [reflexivity | exact H].
Qed.

(** When the initializer throws, so do the writer and the searcher. *)
Lemma init_failure_propagates W s e :
  fst (initializeVectorStore W s) = Thrown e ->
  (forall items, fst (addOrUpdateMemoryItems W items s) = Thrown e)
  /\ (forall q topN filter, fst (searchLongTermMemory W q topN filter s) = Thrown e).
Proof.
  intros H. split; intros; run_after_init;
    destruct (initializeVectorStore W s) as [[u|e'] s1]; simpl in *; congruence.
Qed.

(** What a search answers when the query is run and gives rows. *)
Lemma search_answer W s tbl x q topN filter rows :
  fst (initializeVectorStore W s) = Returned tt ->
  table (snd (initializeVectorStore W s)) = Some tbl ->
  search W tbl (x :: q) topN (whereClause filter) = Returned rows ->
  fst (searchLongTermMemory W (Some (x :: q)) topN filter s)
  = Returned (dedupedResults (Date_parse W) rows topN).
Proof.
  intros Hi Ht Hq. run_after_init.
  destruct (initializeVectorStore W s) as [[u|e'] s1]; simpl in *; [|discriminate].
  rewrite Ht. simpl. now rewrite Hq.
Qed.

(** C7. When a step of the initialization fails (connecting, listing or
    opening the table, the sample embedding, creating the table), the
    initializer throws that step's error and leaves the store not ready: flag
    down, connection and table handle cleared. Whenever it throws, this is so;
    and when it returns, the flag is set and, if it was not before, both
    handles are held. *)
Theorem failed_initialization_resets (W : Collaborators) (s : State) :
  (forall e,
      isInitialized s = false -> initFailure W s e ->
      fst (initializeVectorStore W s) = Thrown e
      /\ notReady (snd (initializeVectorStore W s)))
  /\ (forall e,
         fst (initializeVectorStore W s) = Thrown e ->
         notReady (snd (initializeVectorStore W s)) /\ initFailure W s e)
  /\ (fst (initializeVectorStore W s) = Returned tt ->
      isInitialized (snd (initializeVectorStore W s)) = true
      /\ (isInitialized s = false ->
          exists c t, db (snd (initializeVectorStore W s)) = Some c
                      /\ table (snd (initializeVectorStore W s)) = Some t)).
Proof.
  split; [|split].
  - intros e Hs Hf. pose proof (initFailure_deterministic W s e Hs Hf) as He.
    split; [exact He|].
    destruct (init_when_uninitialized W s Hs) as [(e' & _ & _ & Hn)|(Hr & _)];
      [exact Hn | congruence].
  - intros e He. destruct (isInitialized s) eqn:Hs.
    + rewrite init_when_initialized in He by exact Hs. discriminate.
    + destruct (init_when_uninitialized W s Hs) as [(e' & Hf & He' & Hn)|(Hr & _)];
        [|congruence].
      rewrite He in He'. injection He' as <-. now split.
  - intros Hr. split; [now apply init_returns_initialized|].
    intros Hs. destruct (init_when_uninitialized W s Hs) as [(e' & _ & He' & _)|(_ & _ & H)];
      [congruence | exact H].
Qed.

Lemma failed_initialization_resets_witness :
  (fst (initializeVectorStore deadWorld initialState) = Thrown (Error "connection refused")
   /\ notReady (snd (initializeVectorStore deadWorld initialState)))
  /\ (notReady (snd (initializeVectorStore deadWorld initialState))
      /\ initFailure deadWorld initialState (Error "connection refused"))
  /\ isInitialized (snd (initializeVectorStore (freshWorld []) initialState)) = true.
Proof.
  split; [|split].
  - apply (proj1 (failed_initialization_resets deadWorld initialState));
      [reflexivity | now apply ConnectFails].
  - apply (proj1 (proj2 (failed_initialization_resets deadWorld initialState))).
    reflexivity.
  - apply (proj2 (proj2 (failed_initialization_resets (freshWorld []) initialState))).
    reflexivity.
Defined.

(** C8. Once the flag is set, a call of the initializer returns at once and
    leaves the state, with its record of calls, as it was; so do any number
    of calls. Hence calls of the initializer of which the first returns make
    at most one attempt to create the table. *)
Theorem initialization_is_idempotent :
  (forall W s, isInitialized s = true -> initializeVectorStore W s = (Returned tt, s))
  /\ (forall Ws s, isInitialized s = true -> runInits Ws s = s)
  /\ (forall W Ws s,
         fst (initializeVectorStore W s) = Returned tt ->
         (creations (runInits (W :: Ws) s) <= creations s + 1)%nat).
Proof.
  split; [exact init_when_initialized | split; [exact runInits_when_initialized|]].
  intros W Ws s Hr. simpl.
  rewrite runInits_when_initialized by now apply init_returns_initialized.
  apply init_creations.
Qed.

Lemma initialization_is_idempotent_witness :
  initializeVectorStore deadWorld handlelessState = (Returned tt, handlelessState)
  /\ runInits [deadWorld; freshWorld []; deadWorld] handlelessState = handlelessState
  /\ (creations (runInits [freshWorld []; freshWorld []; deadWorld; freshWorld []] initialState)
      <= creations initialState + 1)%nat.
Proof.
  destruct initialization_is_idempotent as (Hone & Hmany & Hcount).
  split; [|split].
  - apply (Hone deadWorld handlelessState). reflexivity.
  - apply (Hmany [deadWorld; freshWorld []; deadWorld] handlelessState). reflexivity.
  - apply (Hcount (freshWorld []) [freshWorld []; deadWorld; freshWorld []] initialState).
    reflexivity.
Defined.

(** A first call creates the table; the calls after it create nothing. *)
Example one_creation :
  creations (runInits [freshWorld []; freshWorld []; freshWorld []] initialState) = 1%nat.
Proof. reflexivity. Qed.

(** Counterexample to C5 as worded: with an empty query embedding the
    search still throws when the initializer, which is called outside the
    [try], throws. *)
Lemma search_raises_when_initialization_fails :
  ~ (forall W s q topN filter,
        q = None \/ q = Some [] ->
        fst (searchLongTermMemory W q topN filter s) = Returned []).
Proof.
  intros H.
  specialize (H deadWorld initialState (Some []) 3 None (or_intror eq_refl)).
  vm_compute in H. discriminate.
Qed.

(** C5, amended. When the call of the initializer returns, the search
    returns too, and it returns the empty sequence when no table handle is
    held after the initialization, when the query embedding is absent or
    empty, and when the query throws. *)
Theorem search_degrades_once_initialized (W : Collaborators) (s : State)
        (q : option (list number)) (topN : Z) (filter : option string) :
  fst (initializeVectorStore W s) = Returned tt ->
  (exists out, fst (searchLongTermMemory W q topN filter s) = Returned out)
  /\ (table (snd (initializeVectorStore W s)) = None ->
      fst (searchLongTermMemory W q topN filter s) = Returned [])
  /\ (q = None \/ q = Some [] ->
      fst (searchLongTermMemory W q topN filter s) = Returned [])
  /\ (forall tbl embedding e,
         table (snd (initializeVectorStore W s)) = Some tbl ->
         q = Some embedding ->
         search W tbl embedding topN (whereClause filter) = Thrown e ->
         fst (searchLongTermMemory W q topN filter s) = Returned []).
Proof.
  intros Hi. run_after_init.
  destruct (initializeVectorStore W s) as [[u|e'] s1]; simpl in *; [|discriminate].
  destruct (table s1) as [tbl|]; simpl.
  - destruct q as [[|x q]|]; simpl.
    + repeat split; eauto.
    + destruct (search W tbl (x :: q) topN (whereClause filter)) as [rows|e] eqn:Hq; simpl.
      * repeat split; eauto; try discriminate.
        -- intros [H|H]; discriminate.
        -- intros tbl' emb e [= <-] [= <-] He. congruence.
      * repeat split; eauto.
    + repeat split; eauto.
  - repeat split; eauto.
Qed.

Lemma search_degrades_once_initialized_witness :
  fst (searchLongTermMemory deadWorld (Some [Num 1]) 3 None handlelessState) = Returned []
  /\ fst (searchLongTermMemory (freshWorld [rowOld]) (Some []) 3 None initialState) = Returned []
  /\ fst (searchLongTermMemory brokenTableWorld (Some [Num 1]) 3 None initialState) = Returned [].
Proof.
  split; [|split].
  - destruct (search_degrades_once_initialized
                deadWorld handlelessState (Some [Num 1]) 3 None eq_refl)
      as (_ & Hnone & _ & _).
    apply Hnone. reflexivity.
  - destruct (search_degrades_once_initialized
                (freshWorld [rowOld]) initialState (Some []) 3 None eq_refl)
      as (_ & _ & Hempty & _).
    apply Hempty. now right.
  - destruct (search_degrades_once_initialized
                brokenTableWorld initialState (Some [Num 1]) 3 None eq_refl)
      as (_ & _ & _ & Hthrows).
    apply (Hthrows (TableHandle 1) [Num 1] (Error "index corrupted")); reflexivity.
Defined.

(** Counterexample to C6 as worded: the writer throws when the
    initializer, which is called outside the [try], throws. *)
Lemma writer_raises_when_initialization_fails :
  ~ (forall W s items, fst (addOrUpdateMemoryItems W items s) = Returned tt).
Proof.
  intros H. specialize (H deadWorld initialState (Some [sampleItem])).
  vm_compute in H. discriminate.
Qed.

(** C6, amended. When the call of the initializer returns, the writer
    returns, and the store's flag and handles stay as the initializer left
    them. It calls no collaborator when no table handle is held or when there
    are no items. For a batch of items the rows are handed to the table in
    one call, and when that call throws, its error is written to the console
    and goes no further. *)
Theorem writer_swallows_failures_once_initialized (W : Collaborators) (s : State)
        (items : option (list LongTermMemoryData)) :
  fst (initializeVectorStore W s) = Returned tt ->
  fst (addOrUpdateMemoryItems W items s) = Returned tt
  /\ (isInitialized (snd (addOrUpdateMemoryItems W items s))
      = isInitialized (snd (initializeVectorStore W s))
      /\ db (snd (addOrUpdateMemoryItems W items s)) = db (snd (initializeVectorStore W s))
      /\ table (snd (addOrUpdateMemoryItems W items s))
         = table (snd (initializeVectorStore W s)))
  /\ (table (snd (initializeVectorStore W s)) = None ->
      calls (snd (addOrUpdateMemoryItems W items s)) = calls (snd (initializeVectorStore W s)))
  /\ (items = None \/ items = Some [] ->
      calls (snd (addOrUpdateMemoryItems W items s)) = calls (snd (initializeVectorStore W s)))
  /\ (forall tbl x rest,
         table (snd (initializeVectorStore W s)) = Some tbl ->
         items = Some (x :: rest) ->
         exists data,
           calls (snd (addOrUpdateMemoryItems W items s))
           = calls (snd (initializeVectorStore W s)) ++ [CallAdd tbl data]
           /\ forall e,
               add W tbl data = Thrown e ->
               In (ERROR,
                   ("Error adding/updating items in vector store: " ++ message e)%string,
                   None)
                  (console (snd (addOrUpdateMemoryItems W items s)))).
Proof.
  intros Hi. run_after_init.
  destruct (initializeVectorStore W s) as [[u|e'] s1]; simpl in *; [|discriminate].
  destruct (table s1) as [tbl|] eqn:Ht; simpl.
  - destruct items as [[|x items]|]; simpl.
    + repeat split; auto; discriminate.
    + destruct (stamping_returns W (map (toRow) (x :: items)) s1)
        as (stamped & s2 & Hst & Hdb & Htab & Hinit & Hcalls & Hcons).
      simpl in Hst. rewrite Ht, Hst. simpl.
      destruct (add W tbl stamped) as [[]|e] eqn:Hadd; simpl.
      * split; [reflexivity|]. split; [repeat split; congruence|].
        split; [discriminate|]. split; [intros [H|H]; discriminate|].
        intros tbl' x' rest' [= <-] _. exists stamped.
        split; [now rewrite Hcalls|]. intros e' Hfail. rewrite Hfail in Hadd. discriminate.
      * split; [reflexivity|]. split; [repeat split; congruence|].
        split; [discriminate|]. split; [intros [H|H]; discriminate|].
        intros tbl' x' rest' [= <-] _. exists stamped.
        split; [now rewrite Hcalls|]. intros e' Hfail. rewrite Hfail in Hadd.
        injection Hadd as ->. apply in_or_app. right. now left.
    + repeat split; auto; discriminate.
  - repeat split; auto; discriminate.
Qed.

Lemma writer_swallows_failures_once_initialized_witness :
  (fst (addOrUpdateMemoryItems pickyTableWorld (Some [sampleItem]) initialState) = Returned tt
   /\ In (ERROR, "Error adding/updating items in vector store: disk full", None)
         (console (snd (addOrUpdateMemoryItems pickyTableWorld (Some [sampleItem])
                                               initialState))))
  /\ calls (snd (addOrUpdateMemoryItems deadWorld (Some [sampleItem]) handlelessState))
     = calls (snd (initializeVectorStore deadWorld handlelessState))
  /\ calls (snd (addOrUpdateMemoryItems (freshWorld []) (Some []) initialState))
     = calls (snd (initializeVectorStore (freshWorld []) initialState)).
Proof.
  split; [|split].
  - destruct (writer_swallows_failures_once_initialized
                pickyTableWorld initialState (Some [sampleItem]) eq_refl)
      as (Hret & _ & _ & _ & Hlog).
    split; [exact Hret|].
    destruct (Hlog (TableHandle 1) sampleItem [] eq_refl eq_refl) as (data & Hcalls & Hlogged).
    apply (Hlogged (Error "disk full")).
    vm_compute in Hcalls. injection Hcalls as <-. reflexivity.
  - destruct (writer_swallows_failures_once_initialized
                deadWorld handlelessState (Some [sampleItem]) eq_refl)
      as (_ & _ & Hnone & _).
    apply Hnone. reflexivity.
  - destruct (writer_swallows_failures_once_initialized
                (freshWorld []) initialState (Some []) eq_refl)
      as (_ & _ & _ & Hempty & _).
    apply Hempty. now right.
Defined.

End LifecycleProperties.

(** ** The read-only guard of the query tool *)

Module QueryToolProperties.
Import BigQueryServer Vocabulary.

Lemma prefix_app (p s : string) : String.prefix p (p ++ s) = true.
Proof.
  induction p as [|a p IH]; simpl; [now destruct s|].
  destruct (ascii_dec a a); [exact IH | contradiction].
Qed.

Lemma String_includes_unfold (s sub : string) :
  String_includes s sub
  = if String.prefix sub s then true
    else match s with
         | EmptyString => false
         | String _ rest => String_includes rest sub
         end.
Proof. destruct s; reflexivity. Qed.

Lemma String_includes_occurs (s sub : string) :
  occursIn sub s -> String_includes s sub = true.
Proof.
  intros (before & after & ->).
  induction before as [|c before IH].
  - rewrite String_includes_unfold. simpl. now rewrite prefix_app.
  - rewrite String_includes_unfold. simpl (String c before ++ _)%string.
    destruct (String.prefix sub _); [reflexivity | exact IH].
Qed.

Section Guard.
Variable toUpperCase : string -> string.
Variable qualifyTablePath : string -> string -> outcome string.
Variable Rows : Type.
Variable JSON_stringify : Rows -> string.
Variable bigquery_query : QueryOptions -> outcome Rows.
Variables projectId location_ : string.

Lemma guard_rejects (sql : string) (maxBytes : option string) (kw : string) :
  In kw writeKeywords ->
  occursIn kw (toUpperCase sql) ->
  callTool toUpperCase qualifyTablePath Rows JSON_stringify bigquery_query
           projectId location_ "query" (Some sql) maxBytes
  = (Thrown readOnlyError, []).
Proof.
  intros Hkw Hocc. apply String_includes_occurs in Hocc.
  unfold callTool. simpl String.eqb. cbv iota.
  unfold writeKeywords in Hkw. simpl in Hkw.
  destruct Hkw as [<-|[<-|[<-|[<-|[<-|[]]]]]]; rewrite Hocc;
    rewrite ?orb_true_r; reflexivity.
Qed.
End Guard.

(** C10. The handler of the "query" tool throws "Only READ operations are
    allowed", and sends no query to the backend, for every SQL text whose
    upper-case form contains INSERT, UPDATE, DELETE, CREATE or DROP, wherever
    the word stands: a SELECT that names the column [created_at] is refused. *)
Theorem query_tool_rejects_write_keywords :
  (forall toUpperCase qualifyTablePath Rows JSON_stringify bigquery_query
          projectId location_ sql maxBytes kw,
      In kw writeKeywords ->
      occursIn kw (toUpperCase sql) ->
      callTool toUpperCase qualifyTablePath Rows JSON_stringify bigquery_query
               projectId location_ "query" (Some sql) maxBytes
      = (Thrown readOnlyError, []))
  /\ (forall qualifyTablePath Rows JSON_stringify bigquery_query projectId location_ maxBytes,
         callTool ASCII_toUpperCase qualifyTablePath Rows JSON_stringify bigquery_query
                  projectId location_ "query"
                  (Some "SELECT id, created_at FROM logs.events") maxBytes
         = (Thrown readOnlyError, [])).
Proof.
  split.
  - intros. now apply guard_rejects with kw.
  - intros. apply guard_rejects with "CREATE"; [simpl; auto|].
    exists "SELECT ID, ", "D_AT FROM LOGS.EVENTS". reflexivity.
Qed.

Lemma query_tool_rejects_write_keywords_witness :
  callTool ASCII_toUpperCase (fun sql _ => Returned sql) unit (fun _ => "[]")
           (fun _ => Returned tt) "my-project" "us-central1" "query"
           (Some "drop table logs.events") None
  = (Thrown readOnlyError, []).
Proof.
  apply (proj1 query_tool_rejects_write_keywords) with "DROP".
  - simpl. auto 6.
  - exists "", " TABLE LOGS.EVENTS". reflexivity.
Defined.

(** A query without any of the words reaches the backend. *)
Example plain_select_is_sent :
  callTool ASCII_toUpperCase (fun sql _ => Returned sql) unit (fun _ => "[]")
           (fun _ => Returned tt) "my-project" "us-central1" "query"
           (Some "SELECT id FROM logs.events") None
  = (Returned {| content_text := "[]"; isError := false |},
     [{| query := "SELECT id FROM logs.events"; location := "us-central1";
         maximumBytesBilled := "1000000000" |}]).
Proof. reflexivity. Qed.

End QueryToolProperties.

(** ** More on the result of a search *)

Module SearchSelection.
Import VectorStore Vocabulary DedupFacts ScoreFacts SearchProperties.

Lemma Map_set_fresh {V : Type} (m : JsMap V) k v :
  Map_get m k = None -> Map_set m k v = m ++ [(k, v)].
Proof.
  induction m as [|[k' v'] m IH]; simpl; [reflexivity|].
  destruct (String.eqb k k'); [discriminate|].
  intros H. now rewrite IH.
Qed.

Lemma Map_get_None_keys {V : Type} (m : JsMap V) k :
  ~ In k (Map_keys m) -> Map_get m k = None.
Proof.
  intros H. destruct (Map_get m k) eqn:E; [|reflexivity].
  exfalso. apply H, Map_has_In. unfold Map_has. now rewrite E.
Qed.

Lemma keyed_values_ids m : keyed m -> map id (Map_values m) = Map_keys m.
Proof.
  intros [_ Hall]. unfold Map_values, Map_keys. rewrite map_map.
  apply map_ext_in. intros e He. rewrite Forall_forall in Hall. symmetry. now apply Hall.
Qed.

Lemma NoDup_firstn {A : Type} k (l : list A) : NoDup l -> NoDup (firstn k l).
Proof.
  intros H. rewrite <- (firstn_skipn k l) in H. now apply NoDup_app_remove_r in H.
Qed.

Lemma descScore_not_moved x y :
  descScore x y -> SortCompare compareScore x y <> Gt.
Proof.
  unfold SortCompare, compareScore, descScore.
  generalize (scoreOrZero_not_NaN x) (scoreOrZero_not_NaN y).
  destruct (scoreOrZero x) as [| | |p], (scoreOrZero y) as [| | |q];
    simpl; try tauto; try discriminate.
  intros _ _ Hle H. apply Qgt_alt in H. lra.
Qed.

(** A sequence in descending order of score is left as it is. *)
Lemma Array_sort_descending l :
  StronglySorted descScore l -> Array_sort compareScore l = l.
Proof.
  induction l as [|x l IH]; intros H; [reflexivity|].
  inversion H as [|? ? Hl Hall]; subst. simpl. rewrite (IH Hl).
  destruct l as [|y l]; [reflexivity|]. simpl.
  inversion Hall as [|? ? Hxy _]; subst.
  pose proof (descScore_not_moved x y Hxy).
  destruct (SortCompare compareScore x y); congruence.
Qed.

Section WithParser.
Variable Date_parse : string -> Date.

Lemma fold_dedupStep_entries rows m e :
  In e (fold_left (dedupStep Date_parse) rows m) -> In e m \/ In (snd e) rows.
Proof.
  revert m. induction rows as [|r rows IH]; simpl; intros m H; [now left|].
  destruct (IH _ H) as [Hm|Hr]; [|now right; right].
  destruct (dedupStep_cases Date_parse m r) as [[Heq _]|Heq]; rewrite Heq in Hm.
  - now left.
  - destruct (Map_set_In _ _ _ _ Hm) as [Hin| ->]; [now left | right; now left].
Qed.

Lemma latestById_values_fetched rows r :
  In r (Map_values (latestById Date_parse rows)) -> In r rows.
Proof.
  unfold Map_values. intros H. apply in_map_iff in H. destruct H as (e & <- & He).
  destruct (fold_dedupStep_entries rows [] e He) as [[]|H]. exact H.
Qed.

Lemma dedupedResults_values rows topN r :
  In r (dedupedResults Date_parse rows topN) ->
  In r (Map_values (latestById Date_parse rows)).
Proof.
  unfold dedupedResults. intros H. apply Array_slice0_In in H.
  now apply (Permutation_in r (Permutation_sym (Array_sort_perm compareScore _))) in H.
Qed.

Lemma dedupedResults_distinct rows topN :
  NoDup (map id (dedupedResults Date_parse rows topN)).
Proof.
  unfold dedupedResults, Array_slice0. rewrite <- firstn_map. apply NoDup_firstn.
  apply (Permutation_NoDup
           (Permutation_map id (Array_sort_perm compareScore
                                  (Map_values (latestById Date_parse rows))))).
  rewrite keyed_values_ids by apply latestById_keyed.
  apply (latestById_keyed Date_parse rows).
Qed.

Lemma dedupStep_fresh m r :
  Map_get m (id r) = None -> dedupStep Date_parse m r = Map_set m (id r) r.
Proof.
  intros H. unfold dedupStep, Map_has. rewrite H. simpl.
  now destruct (truthy (insert_timestamp r)).
Qed.

(** A fetch of rows with distinct ids fills the map in the order of the fetch. *)
Lemma fold_dedupStep_distinct rows m :
  NoDup (Map_keys m ++ map id rows) ->
  fold_left (dedupStep Date_parse) rows m = m ++ map (fun r => (id r, r)) rows.
Proof.
  revert m. induction rows as [|r rows IH]; simpl; intros m H.
  - now rewrite app_nil_r.
  - assert (Hfresh : Map_get m (id r) = None).
    { apply Map_get_None_keys. intros Hin.
      apply NoDup_remove_2 in H. apply H, in_or_app. now left. }
    assert (Hstep : dedupStep Date_parse m r = m ++ [(id r, r)]).
    { rewrite dedupStep_fresh by exact Hfresh. now apply Map_set_fresh. }
    rewrite Hstep, IH.
    + now rewrite <- app_assoc.
    + unfold Map_keys in *. rewrite map_app, <- app_assoc. simpl.
      apply NoDup_Add with (a := id r) (l := map fst m ++ map id rows).
      * apply Add_app.
      * split; [now apply NoDup_remove_1 in H | now apply NoDup_remove_2 in H].
Qed.

(** The first row fetched for an id stays the entry of that id as long as
    no later row displaces it. *)
Lemma first_row_kept l1 r l2 :
  (forall x, In x l1 -> id x <> id r) ->
  (forall m x, In x l2 -> Map_get m (id r) = Some r ->
               Map_get (dedupStep Date_parse m x) (id r) = Some r) ->
  Map_get (latestById Date_parse (l1 ++ r :: l2)) (id r) = Some r.
Proof.
  intros Hl1 Hl2. unfold latestById. rewrite fold_left_app. simpl.
  assert (Hfresh : Map_get (fold_left (dedupStep Date_parse) l1 []) (id r) = None).
  { apply Map_get_None_keys. rewrite fold_dedupStep_keys. simpl.
    intros [[]|Hin]. apply in_map_iff in Hin. destruct Hin as (x & Hx & Hin).
    now apply (Hl1 x Hin). }
  assert (Hset : Map_get (dedupStep Date_parse (fold_left (dedupStep Date_parse) l1 []) r)
                         (id r) = Some r).
  { rewrite dedupStep_fresh by exact Hfresh. apply Map_get_set_same. }
  revert Hset. generalize (dedupStep Date_parse (fold_left (dedupStep Date_parse) l1 []) r).
  induction l2 as [|x l2 IH]; simpl; intros m Hm; [exact Hm|].
  apply IH.
  - intros m' y Hy. apply Hl2. now right.
  - apply Hl2; [now left | exact Hm].
Qed.
End WithParser.
End SearchSelection.

Module SearchExtras.
Import VectorStore Vocabulary Samples SearchVocabulary DedupFacts ScoreFacts SearchProperties
       SearchSelection.

(** X1. Every returned row is one of the fetched rows. *)
Theorem result_rows_are_fetched (Date_parse : string -> Date)
        (rows : list SearchResultItem) (topN : Z) (r : SearchResultItem) :
  In r (dedupedResults Date_parse rows topN) -> In r rows.
Proof.
  intros H. now apply (latestById_values_fetched Date_parse), dedupedResults_values with topN.
Qed.

Lemma result_rows_are_fetched_witness :
  In rowNew (dedupedResults noParse [rowOld; rowOther; rowNew] 3)
  /\ In rowNew [rowOld; rowOther; rowNew].
Proof.
  assert (H : In rowNew (dedupedResults noParse [rowOld; rowOther; rowNew] 3))
    by (vm_compute; auto).
  split; [exact H|].
  exact (result_rows_are_fetched noParse [rowOld; rowOther; rowNew] 3 rowNew H).
Defined.

(** With [topN] at least the number of distinct ids, every fetched id has a
    row among the post-processed rows. *)
Lemma post_processing_covers_ids (Date_parse : string -> Date)
        (rows : list SearchResultItem) (topN : Z) (r : SearchResultItem) :
  Z.of_nat (distinctIds rows) <= topN ->
  In r rows ->
  exists kept, In kept (dedupedResults Date_parse rows topN) /\ id kept = id r.
Proof.
  intros Hn Hr.
  assert (Hk : In (id r) (Map_keys (latestById Date_parse rows))).
  { unfold latestById. rewrite fold_dedupStep_keys. right. now apply in_map. }
  unfold Map_keys in Hk. apply in_map_iff in Hk. destruct Hk as ([k v] & Hkv & Hin).
  simpl in Hkv. subst k. exists v. split.
  - unfold dedupedResults. rewrite Array_slice0_all.
    + apply (Permutation_in v (Array_sort_perm compareScore _)).
      unfold Map_values. change v with (snd (id r, v)). now apply in_map.
    + rewrite <- (Permutation_length (Array_sort_perm compareScore _)).
      now rewrite latestById_count.
  - destruct (latestById_keyed Date_parse rows) as [_ Hall].
    rewrite Forall_forall in Hall. symmetry. exact (Hall _ Hin).
Qed.

(** With valid dates, the row kept for an id is a latest one. *)
Lemma post_processing_keeps_latest (Date_parse : string -> Date)
        (rows : list SearchResultItem) (topN : Z) (kept r : SearchResultItem) (T : Z) :
  In kept (dedupedResults Date_parse rows topN) ->
  In r rows -> id r = id kept -> hasInsertTime Date_parse r T ->
  (forall x, In x rows -> id x = id kept -> truthy (insert_timestamp x) = true ->
             toDate Date_parse (insert_timestamp x) <> None) ->
  exists Tkept, hasInsertTime Date_parse kept Tkept /\ T <= Tkept.
Proof.
  intros Hkept Hr Hid HT Hvalid.
  assert (Hfetched : In kept rows)
    by (now apply (latestById_values_fetched Date_parse), dedupedResults_values with topN).
  apply dedupedResults_In in Hkept.
  destruct (latestById_settled Date_parse rows r T Hr HT) as (e & Hget & He & Hle).
  rewrite Hid, Hkept in Hget. injection Hget as <-.
  destruct (toDate Date_parse (insert_timestamp kept)) as [Tk|] eqn:Hd.
  - exists Tk. split; [now split|]. simpl in Hle. now apply Z.ltb_ge in Hle.
  - exfalso. now apply (Hvalid kept Hfetched eq_refl He).
Qed.

(** A first row with an Invalid Date keeps its place. *)
Lemma post_processing_keeps_invalid_date (Date_parse : string -> Date)
        (l1 l2 : list SearchResultItem) (r : SearchResultItem) (topN : Z) :
  (forall x, In x l1 -> id x <> id r) ->
  truthy (insert_timestamp r) = true ->
  toDate Date_parse (insert_timestamp r) = None ->
  forall x, In x (dedupedResults Date_parse (l1 ++ r :: l2) topN) -> id x = id r -> x = r.
Proof.
  intros Hl1 Ht Hd x Hx Hid. apply dedupedResults_In in Hx.
  rewrite Hid, first_row_kept in Hx; [congruence | exact Hl1 |].
  intros m y _ Hm. destruct (String.eqb_spec (id y) (id r)) as [Heq|Hne].
  - unfold dedupStep, Map_has. rewrite Heq, Hm, Ht, Hd. simpl.
    destruct (truthy (insert_timestamp y)); [|exact Hm].
    destruct (toDate Date_parse (insert_timestamp y)); exact Hm.
  - destruct (dedupStep_cases Date_parse m y) as [[-> _]| ->]; [exact Hm|].
    rewrite Map_get_set_other; [exact Hm | congruence].
Qed.

(** Among legacy rows only, the first row of an id keeps its place. *)
Lemma post_processing_keeps_first_legacy (Date_parse : string -> Date)
        (l1 l2 : list SearchResultItem) (r : SearchResultItem) (topN : Z) :
  (forall x, In x l1 -> id x <> id r) ->
  truthy (insert_timestamp r) = false ->
  (forall x, In x l2 -> id x = id r -> truthy (insert_timestamp x) = false) ->
  forall x, In x (dedupedResults Date_parse (l1 ++ r :: l2) topN) -> id x = id r -> x = r.
Proof.
  intros Hl1 Ht Hl2 x Hx Hid. apply dedupedResults_In in Hx.
  rewrite Hid, first_row_kept in Hx; [congruence | exact Hl1 |].
  intros m y Hy Hm. destruct (String.eqb_spec (id y) (id r)) as [Heq|Hne].
  - unfold dedupStep, Map_has. rewrite (Hl2 y Hy Heq), Heq, Hm. exact Hm.
  - destruct (dedupStep_cases Date_parse m y) as [[-> _]| ->]; [exact Hm|].
    rewrite Map_get_set_other; [exact Hm | congruence].
Qed.

(** Rows none of which has to stand behind another are left in the order
    of the map, and of the fetch itself when the ids are distinct. *)
Lemma post_processing_keeps_order (Date_parse : string -> Date)
      (rows : list SearchResultItem) (topN : Z) :
  (forall a b, In a rows -> In b rows -> descScore a b) ->
  dedupedResults Date_parse rows topN
  = Array_slice0 (Map_values (latestById Date_parse rows)) topN
  /\ (NoDup (map id rows) -> dedupedResults Date_parse rows topN = Array_slice0 rows topN).
Proof.
  intros Hc.
  assert (Hsort : Array_sort compareScore (Map_values (latestById Date_parse rows))
                  = Map_values (latestById Date_parse rows)).
  { apply Array_sort_descending.
    assert (Hall : forall r, In r (Map_values (latestById Date_parse rows)) -> In r rows)
      by (intros r; apply latestById_values_fetched).
    induction (Map_values (latestById Date_parse rows)) as [|r l IH]; constructor.
    - apply IH. intros x Hx. apply Hall. now right.
    - apply Forall_forall. intros y Hy. apply Hc; apply Hall; [now left | now right]. }
  unfold dedupedResults. rewrite Hsort. split; [reflexivity|].
  intros Hnd. unfold latestById. rewrite fold_dedupStep_distinct by exact Hnd.
  simpl. unfold Map_values. rewrite map_map. simpl. now rewrite map_id.
Qed.

(** X8. For a count [topN] (zero or more), post-processing a result again
    gives the same result. *)
Theorem post_processing_is_idempotent (Date_parse : string -> Date)
        (rows : list SearchResultItem) (topN : Z) :
  0 <= topN ->
  dedupedResults Date_parse (dedupedResults Date_parse rows topN) topN
  = dedupedResults Date_parse rows topN.
Proof.
  intros Hn. set (out := dedupedResults Date_parse rows topN).
  assert (Hnd : NoDup (map id out)) by apply dedupedResults_distinct.
  assert (Hsorted : StronglySorted descScore out)
    by (apply StronglySorted_firstn, sorted_by_score).
  unfold dedupedResults at 1. unfold latestById.
  rewrite fold_dedupStep_distinct by exact Hnd. simpl.
  unfold Map_values. rewrite map_map. simpl. rewrite map_id.
  rewrite Array_sort_descending by exact Hsorted.
  apply Array_slice0_all. now apply Array_slice0_length_le.
Qed.

Lemma post_processing_is_idempotent_witness :
  dedupedResults noParse (dedupedResults noParse [rowOld; rowOther; rowNew] 1) 1
  = dedupedResults noParse [rowOld; rowOther; rowNew] 1.
Proof.
  apply (post_processing_is_idempotent noParse [rowOld; rowOther; rowNew] 1). lia.
Defined.

(** X2. When the query fetches rows, no two rows of the sequence
    searchLongTermMemory returns have the same id. *)
Theorem result_ids_are_distinct (W : Collaborators) (s : State) (q : list number) (topN : Z)
        (filter : option string) (rows : list SearchResultItem) :
  fetches W s q topN filter rows ->
  exists out,
    fst (searchLongTermMemory W (Some q) topN filter s) = Returned out
    /\ NoDup (map id out).
Proof.
  intros Hf. exists (dedupedResults (Date_parse W) rows topN).
  split; [now apply search_returns_post_processed | apply dedupedResults_distinct].
Qed.

Lemma result_ids_are_distinct_witness :
  exists out,
    fst (searchLongTermMemory (freshWorld [rowOld; rowLegacy; rowNew; rowOther])
                              (Some [Num 1]) 4 None initialState) = Returned out
    /\ NoDup (map id out).
Proof.
  apply (result_ids_are_distinct (freshWorld [rowOld; rowLegacy; rowNew; rowOther])
                                 initialState [Num 1] 4 None
                                 [rowOld; rowLegacy; rowNew; rowOther]).
  fetched.
Defined.

(** X3. When the query fetches rows and [topN] is at least the number of
    distinct ids among them, every fetched id has a row in the sequence
    searchLongTermMemory returns. *)
Theorem every_fetched_id_is_answered (W : Collaborators) (s : State) (q : list number)
        (topN : Z) (filter : option string) (rows : list SearchResultItem)
        (r : SearchResultItem) :
  fetches W s q topN filter rows ->
  Z.of_nat (distinctIds rows) <= topN ->
  In r rows ->
  exists out,
    fst (searchLongTermMemory W (Some q) topN filter s) = Returned out
    /\ exists kept, In kept out /\ id kept = id r.
Proof.
  intros Hf Hn Hr. exists (dedupedResults (Date_parse W) rows topN).
  split; [now apply search_returns_post_processed|].
  now apply post_processing_covers_ids.
Qed.

Lemma every_fetched_id_is_answered_witness :
  exists out,
    fst (searchLongTermMemory (freshWorld [rowOld; rowOther; rowNew])
                              (Some [Num 1]) 2 None initialState) = Returned out
    /\ exists kept, In kept out /\ id kept = id rowOld.
Proof.
  apply (every_fetched_id_is_answered (freshWorld [rowOld; rowOther; rowNew])
                                      initialState [Num 1] 2 None
                                      [rowOld; rowOther; rowNew] rowOld).
  - fetched.
  - vm_compute. discriminate.
  - now left.
Defined.

(** X4. When the fetched rows of an id that carry an insertion timestamp
    all carry a valid date, the row searchLongTermMemory returns for that id
    is a latest one: its time is not before that of any fetched row of the
    id. *)
Theorem returned_version_is_latest (W : Collaborators) (s : State) (q : list number)
        (topN : Z) (filter : option string) (rows : list SearchResultItem) :
  fetches W s q topN filter rows ->
  exists out,
    fst (searchLongTermMemory W (Some q) topN filter s) = Returned out
    /\ forall kept r T,
        In kept out -> In r rows -> id r = id kept ->
        hasInsertTime (Date_parse W) r T ->
        (forall x, In x rows -> id x = id kept -> truthy (insert_timestamp x) = true ->
                   toDate (Date_parse W) (insert_timestamp x) <> None) ->
        exists Tkept, hasInsertTime (Date_parse W) kept Tkept /\ T <= Tkept.
Proof.
  intros Hf. exists (dedupedResults (Date_parse W) rows topN).
  split; [now apply search_returns_post_processed|].
  intros kept r T. apply post_processing_keeps_latest.
Qed.

Lemma returned_version_is_latest_witness :
  exists out,
    fst (searchLongTermMemory (freshWorld [rowNew; rowOther; rowOld])
                              (Some [Num 1]) 3 None initialState) = Returned out
    /\ forall kept r T,
        In kept out -> In r [rowNew; rowOther; rowOld] -> id r = id kept ->
        hasInsertTime noParse r T ->
        (forall x, In x [rowNew; rowOther; rowOld] -> id x = id kept ->
                   truthy (insert_timestamp x) = true ->
                   toDate noParse (insert_timestamp x) <> None) ->
        exists Tkept, hasInsertTime noParse kept Tkept /\ T <= Tkept.
Proof.
  apply (returned_version_is_latest (freshWorld [rowNew; rowOther; rowOld])
                                    initialState [Num 1] 3 None [rowNew; rowOther; rowOld]).
  fetched.
Defined.

(** The older version of [a] is fetched, the newer one is returned. *)
Example latest_version_example :
  fst (searchLongTermMemory (freshWorld [rowNew; rowOther; rowOld])
                            (Some [Num 1]) 3 None initialState)
  = Returned [rowNew; rowOther].
Proof. reflexivity. Qed.

(** X5. A row whose insertion timestamp is an Invalid Date, when it is the
    first row fetched for its id, is the only row of that id that
    searchLongTermMemory can return: no later row, whatever its timestamp,
    takes its place. *)
Theorem invalid_date_is_never_replaced (W : Collaborators) (s : State) (q : list number)
        (topN : Z) (filter : option string)
        (l1 l2 : list SearchResultItem) (r : SearchResultItem) :
  fetches W s q topN filter (l1 ++ r :: l2) ->
  (forall x, In x l1 -> id x <> id r) ->
  truthy (insert_timestamp r) = true ->
  toDate (Date_parse W) (insert_timestamp r) = None ->
  exists out,
    fst (searchLongTermMemory W (Some q) topN filter s) = Returned out
    /\ forall x, In x out -> id x = id r -> x = r.
Proof.
  intros Hf Hl1 Ht Hd. exists (dedupedResults (Date_parse W) (l1 ++ r :: l2) topN).
  split; [now apply search_returns_post_processed|].
  now apply post_processing_keeps_invalid_date.
Qed.

Lemma invalid_date_is_never_replaced_witness :
  exists out,
    fst (searchLongTermMemory (freshWorld ([rowOther] ++ rowBroken :: [rowOld; rowNew]))
                              (Some [Num 1]) 3 None initialState) = Returned out
    /\ forall x, In x out -> id x = id rowBroken -> x = rowBroken.
Proof.
  apply (invalid_date_is_never_replaced
           (freshWorld ([rowOther] ++ rowBroken :: [rowOld; rowNew]))
           initialState [Num 1] 3 None [rowOther] [rowOld; rowNew] rowBroken).
  - fetched.
  - intros x [<-|[]]. discriminate.
  - reflexivity.
  - reflexivity.
Defined.

(** The row with the unreadable date is returned, not the later versions. *)
Example invalid_date_example :
  fst (searchLongTermMemory (freshWorld [rowOther; rowBroken; rowOld; rowNew])
                            (Some [Num 1]) 3 None initialState)
  = Returned [rowOther; rowBroken].
Proof. reflexivity. Qed.

(** X6. Among rows without insertion timestamp only, the first one fetched
    for an id is the only row of that id that searchLongTermMemory can
    return. *)
Theorem first_legacy_row_is_kept (W : Collaborators) (s : State) (q : list number)
        (topN : Z) (filter : option string)
        (l1 l2 : list SearchResultItem) (r : SearchResultItem) :
  fetches W s q topN filter (l1 ++ r :: l2) ->
  (forall x, In x l1 -> id x <> id r) ->
  truthy (insert_timestamp r) = false ->
  (forall x, In x l2 -> id x = id r -> truthy (insert_timestamp x) = false) ->
  exists out,
    fst (searchLongTermMemory W (Some q) topN filter s) = Returned out
    /\ forall x, In x out -> id x = id r -> x = r.
Proof.
  intros Hf Hl1 Ht Hl2. exists (dedupedResults (Date_parse W) (l1 ++ r :: l2) topN).
  split; [now apply search_returns_post_processed|].
  now apply post_processing_keeps_first_legacy.
Qed.

Lemma first_legacy_row_is_kept_witness :
  exists out,
    fst (searchLongTermMemory (freshWorld ([rowOther] ++ rowLegacy :: [rowLegacyLater]))
                              (Some [Num 1]) 3 None initialState) = Returned out
    /\ forall x, In x out -> id x = id rowLegacy -> x = rowLegacy.
Proof.
  apply (first_legacy_row_is_kept
           (freshWorld ([rowOther] ++ rowLegacy :: [rowLegacyLater]))
           initialState [Num 1] 3 None [rowOther] [rowLegacyLater] rowLegacy).
  - fetched.
  - intros x [<-|[]]. discriminate.
  - reflexivity.
  - intros x [<-|[]] _. reflexivity.
Defined.

(** X7. When all fetched rows count with the same score [c] (as when none
    has a score), searchLongTermMemory returns the rows kept in the order in which
    their ids were first fetched, cut to [topN]; with distinct ids it returns
    [slice(0, topN)] of the fetched rows. *)
Theorem equal_scores_keep_fetch_order (W : Collaborators) (s : State) (q : list number)
        (topN : Z) (filter : option string) (rows : list SearchResultItem) (c : number) :
  fetches W s q topN filter rows ->
  (forall r, In r rows -> number_le (countedScore r) c /\ number_le c (countedScore r)) ->
  fst (searchLongTermMemory W (Some q) topN filter s)
  = Returned (Array_slice0 (Map_values (latestById (Date_parse W) rows)) topN)
  /\ (NoDup (map id rows) ->
      fst (searchLongTermMemory W (Some q) topN filter s)
      = Returned (Array_slice0 rows topN)).
Proof.
  intros Hf Hc. rewrite (search_returns_post_processed _ _ _ _ _ _ Hf).
  assert (Hsame : forall a b, In a rows -> In b rows -> descScore a b).
  { intros a b Ha Hb. unfold descScore.
    apply number_le_trans with (countedScore b); [apply scoreOrZero_counted|].
    apply number_le_trans with c; [apply (Hc b Hb)|].
    apply number_le_trans with (countedScore a); [apply (Hc a Ha) | apply scoreOrZero_counted]. }
  destruct (post_processing_keeps_order (Date_parse W) rows topN Hsame) as [H1 H2].
  split; [now rewrite H1 | intros Hnd; now rewrite (H2 Hnd)].
Qed.

Lemma equal_scores_keep_fetch_order_witness :
  fst (searchLongTermMemory (freshWorld [rowPlainB; rowPlainA]) (Some [Num 1]) 3 None
                            initialState)
  = Returned (Array_slice0 [rowPlainB; rowPlainA] 3).
Proof.
  apply (equal_scores_keep_fetch_order (freshWorld [rowPlainB; rowPlainA]) initialState
                                       [Num 1] 3 None [rowPlainB; rowPlainA] (Num 0)).
  - fetched.
  - intros r [<-|[<-|[]]]; split; apply Qle_refl.
  - repeat constructor; simpl; intuition discriminate.
Defined.

End SearchExtras.

(** ** More on initialization, writing and searching *)

Module LifecycleExtras.
Import VectorStore Vocabulary Samples LifecycleFacts LifecycleProperties.

Local Arguments mapM : simpl never.

(** The rows after stamping: everything is kept, and the row at position
    [i] gets the time of the clock reading number [ticks s + i]. *)
Lemma stamping_result W data s :
  exists stamped s',
    mapM (withInsertTimestamp W) data s = (Returned stamped, s')
    /\ (db s' = db s /\ table s' = table s /\ isInitialized s' = isInitialized s
        /\ calls s' = calls s /\ console s' = console s)
    /\ (map row_id stamped = map row_id data
        /\ map row_text stamped = map row_text data
        /\ map row_vector stamped = map row_vector data
        /\ map row_metadata_timestamp stamped = map row_metadata_timestamp data
        /\ map row_metadata_stage stamped = map row_metadata_stage data)
    /\ map row_insert_timestamp stamped
       = map (fun k => Some (Some (clock W k))) (seq (ticks s) (List.length data)).
Proof.
  revert s. induction data as [|x data IH]; intros s.
  - exists [], s. repeat split.
  - rewrite mapM_cons.
    assert (Hone : withInsertTimestamp W x s
                   = (Returned {| row_id := row_id x; row_text := row_text x;
                                  row_vector := row_vector x;
                                  row_metadata_timestamp := row_metadata_timestamp x;
                                  row_metadata_stage := row_metadata_stage x;
                                  row_insert_timestamp := Some (Some (clock W (ticks s))) |},
                      {| db := db s; table := table s;
                         isInitialized := isInitialized s; calls := calls s;
                         console := console s; ticks := S (ticks s) |}))
      by reflexivity.
    rewrite Hone.
    match goal with |- context [mapM _ data ?s1] =>
      destruct (IH s1) as (st & s' & -> & Hs & (H1 & H2 & H3 & H4 & H5) & Ht) end.
    simpl in Hs, Ht. eexists _, s'. split; [reflexivity|]. split; [exact Hs|]. split.
    + simpl. now rewrite H1, H2, H3, H4, H5.
    + simpl. now rewrite Ht.
Qed.

(** X9. Once the initializer has returned, a search leaves the flag and
    the handles alone and sends at most one query: none without a table handle
    or with an absent or empty embedding, and otherwise exactly one, for the
    given embedding, limited to [topN], with the filter passed on as it is
    unless it is absent or empty. *)
Theorem search_sends_one_query (W : Collaborators) (s : State)
        (q : option (list number)) (topN : Z) (filter : option string) :
  fst (initializeVectorStore W s) = Returned tt ->
  (isInitialized (snd (searchLongTermMemory W q topN filter s))
   = isInitialized (snd (initializeVectorStore W s))
   /\ db (snd (searchLongTermMemory W q topN filter s)) = db (snd (initializeVectorStore W s))
   /\ table (snd (searchLongTermMemory W q topN filter s))
      = table (snd (initializeVectorStore W s)))
  /\ (forall tbl x rest,
         table (snd (initializeVectorStore W s)) = Some tbl ->
         q = Some (x :: rest) ->
         calls (snd (searchLongTermMemory W q topN filter s))
         = calls (snd (initializeVectorStore W s))
           ++ [CallSearch tbl (x :: rest) topN (whereClause filter)])
  /\ (table (snd (initializeVectorStore W s)) = None \/ q = None \/ q = Some [] ->
      calls (snd (searchLongTermMemory W q topN filter s))
      = calls (snd (initializeVectorStore W s)))
  /\ (whereClause None = None /\ whereClause (Some "") = None
      /\ forall c f, whereClause (Some (String c f)) = Some (String c f)).
Proof.
  intros Hi. run_after_init.
  destruct (initializeVectorStore W s) as [[u|e'] s1]; simpl in *; [|discriminate].
  destruct (table s1) as [tbl|] eqn:Ht; simpl.
  - destruct q as [[|x q]|]; simpl.
    + repeat split; auto; try discriminate.
    + destruct (search W tbl (x :: q) topN (whereClause filter)) as [rows|e]; simpl.
      * repeat split; auto; try congruence.
        intros [H|[H|H]]; discriminate.
      * repeat split; auto; try congruence.
        intros [H|[H|H]]; discriminate.
    + repeat split; auto; try discriminate.
  - repeat split; auto; try discriminate.
Qed.

Lemma search_sends_one_query_witness :
  calls (snd (searchLongTermMemory (freshWorld [rowOld]) (Some [Num 1]) 5 (Some "") initialState))
  = calls (snd (initializeVectorStore (freshWorld [rowOld]) initialState))
    ++ [CallSearch (TableHandle 1) [Num 1] 5 None]
  /\ calls (snd (searchLongTermMemory (freshWorld [rowOld]) (Some []) 5 None initialState))
     = calls (snd (initializeVectorStore (freshWorld [rowOld]) initialState)).
Proof.
  split.
  - destruct (search_sends_one_query (freshWorld [rowOld]) initialState
                                     (Some [Num 1]) 5 (Some "") eq_refl)
      as (_ & Hone & _ & _).
    apply (Hone (TableHandle 1) (Num 1) []); reflexivity.
  - destruct (search_sends_one_query (freshWorld [rowOld]) initialState
                                     (Some []) 5 None eq_refl)
      as (_ & _ & Hnone & _).
    apply Hnone. right. now right.
Defined.

(** X10. Once the initializer has returned and holds a table, writing a
    batch of items makes one [add] call for the whole batch, whether that call
    returns or throws. The rows handed over are the items in their order, with
    id, text, vector, metadata timestamp and stage unchanged, and each carries
    an insertion timestamp read from the clock. *)
Theorem writer_appends_stamped_rows (W : Collaborators) (s : State) (tbl : Table)
        (x : LongTermMemoryData) (rest : list LongTermMemoryData) :
  fst (initializeVectorStore W s) = Returned tt ->
  table (snd (initializeVectorStore W s)) = Some tbl ->
  exists data,
    calls (snd (addOrUpdateMemoryItems W (Some (x :: rest)) s))
    = calls (snd (initializeVectorStore W s)) ++ [CallAdd tbl data]
    /\ (map row_id data = map ltm_id (x :: rest)
        /\ map row_text data = map ltm_text (x :: rest)
        /\ map row_vector data = map ltm_vector (x :: rest)
        /\ map row_metadata_timestamp data = map ltm_metadata_timestamp (x :: rest)
        /\ map row_metadata_stage data = map ltm_metadata_stage (x :: rest))
    /\ map row_insert_timestamp data
       = map (fun k => Some (Some (clock W k)))
             (seq (ticks (snd (initializeVectorStore W s))) (S (List.length rest))).
Proof.
  intros Hi Ht. run_after_init.
  destruct (initializeVectorStore W s) as [[u|e'] s1]; simpl in *; [|discriminate].
  rewrite Ht. simpl. rewrite Ht.
  destruct (stamping_result W (map toRow (x :: rest)) s1)
    as (stamped & s2 & Hst & (_ & _ & _ & Hcalls & _) & (H1 & H2 & H3 & H4 & H5) & Hts).
  simpl in Hst. rewrite Hst. simpl.
  rewrite !map_map in H1, H2, H3, H4, H5. rewrite length_map in Hts.
  exists stamped. split; [|split; [repeat split; assumption | exact Hts]].
  destruct (add W tbl stamped) as [[]|e]; simpl; now rewrite Hcalls.
Qed.

Lemma writer_appends_stamped_rows_witness :
  exists data,
    calls (snd (addOrUpdateMemoryItems brokenTableWorld (Some [sampleItem; sampleItem])
                                       initialState))
    = calls (snd (initializeVectorStore brokenTableWorld initialState))
      ++ [CallAdd (TableHandle 1) data]
    /\ (map row_id data = map ltm_id [sampleItem; sampleItem]
        /\ map row_text data = map ltm_text [sampleItem; sampleItem]
        /\ map row_vector data = map ltm_vector [sampleItem; sampleItem]
        /\ map row_metadata_timestamp data
           = map ltm_metadata_timestamp [sampleItem; sampleItem]
        /\ map row_metadata_stage data = map ltm_metadata_stage [sampleItem; sampleItem])
    /\ map row_insert_timestamp data
       = map (fun k => Some (Some (clock brokenTableWorld k)))
             (seq (ticks (snd (initializeVectorStore brokenTableWorld initialState))) 2).
Proof.
  apply (writer_appends_stamped_rows brokenTableWorld initialState (TableHandle 1)
                                     sampleItem [sampleItem]); reflexivity.
Defined.

(** X11. When the table is listed, a first initialization connects, lists
    the tables and opens the table: it asks for no embedding and creates
    nothing, and it ends with the flag set and both handles held. *)
Theorem initialization_opens_existing_table (W : Collaborators) (s : State)
        (c : Connection) (names : list string) (t : Table) :
  isInitialized s = false ->
  connect W (VECTOR_STORE_DIR W) = Returned c ->
  tableNames W c = Returned names ->
  In TABLE_NAME names ->
  openTable W c TABLE_NAME = Returned t ->
  fst (initializeVectorStore W s) = Returned tt
  /\ isInitialized (snd (initializeVectorStore W s)) = true
  /\ db (snd (initializeVectorStore W s)) = Some c
  /\ table (snd (initializeVectorStore W s)) = Some t
  /\ calls (snd (initializeVectorStore W s))
     = calls s ++ [CallConnect (VECTOR_STORE_DIR W); CallTableNames c;
                   CallOpenTable c TABLE_NAME].
Proof.
  intros Hs Hc Hn Hin Ho.
  assert (Hinc : Array_includes names TABLE_NAME = true).
  { unfold Array_includes. apply existsb_exists. exists TABLE_NAME.
    split; [exact Hin | apply String.eqb_refl]. }
  run. rewrite Hs, Hc. simpl. rewrite Hn. simpl. rewrite Hinc. simpl. rewrite Ho. simpl.
  repeat split. now rewrite <- !app_assoc.
Qed.

Lemma initialization_opens_existing_table_witness :
  fst (initializeVectorStore brokenTableWorld initialState) = Returned tt
  /\ isInitialized (snd (initializeVectorStore brokenTableWorld initialState)) = true
  /\ db (snd (initializeVectorStore brokenTableWorld initialState)) = Some (ConnectionHandle 1)
  /\ table (snd (initializeVectorStore brokenTableWorld initialState)) = Some (TableHandle 1)
  /\ calls (snd (initializeVectorStore brokenTableWorld initialState))
     = calls initialState
       ++ [CallConnect (VECTOR_STORE_DIR brokenTableWorld);
           CallTableNames (ConnectionHandle 1);
           CallOpenTable (ConnectionHandle 1) TABLE_NAME].
Proof.
  apply (initialization_opens_existing_table
           brokenTableWorld initialState (ConnectionHandle 1) [TABLE_NAME] (TableHandle 1));
    try reflexivity.
  now left.
Defined.

(** X12. When the table is not listed and the sample embedding has
    [n > 0] components, a first initialization creates the table from one
    placeholder row: its id is [dummy_id], its vector consists of [n] zeros,
    and it carries no insertion timestamp. Nothing is opened. *)
Theorem initialization_creates_missing_table (W : Collaborators) (s : State)
        (c : Connection) (names : list string) (x : number) (sample : list number)
        (t : Table) :
  isInitialized s = false ->
  connect W (VECTOR_STORE_DIR W) = Returned c ->
  tableNames W c = Returned names ->
  ~ In TABLE_NAME names ->
  getEmbeddings W "schema_init" = Returned (Some (x :: sample)) ->
  createTable W c TABLE_NAME
              (dummyData W (List.length (x :: sample)) (Some (clock W (ticks s))))
  = Returned t ->
  (fst (initializeVectorStore W s) = Returned tt
   /\ isInitialized (snd (initializeVectorStore W s)) = true
   /\ db (snd (initializeVectorStore W s)) = Some c
   /\ table (snd (initializeVectorStore W s)) = Some t)
  /\ calls (snd (initializeVectorStore W s))
     = calls s ++ [CallConnect (VECTOR_STORE_DIR W); CallTableNames c;
                   CallGetEmbeddings "schema_init";
                   CallCreateTable c TABLE_NAME
                     (dummyData W (List.length (x :: sample)) (Some (clock W (ticks s))))]
  /\ exists row,
      dummyData W (List.length (x :: sample)) (Some (clock W (ticks s))) = [row]
      /\ row_id row = "dummy_id"
      /\ List.length (row_vector row) = List.length (x :: sample)
      /\ Forall (fun v => v = Num 0) (row_vector row)
      /\ row_insert_timestamp row = None.
Proof.
  intros Hs Hc Hn Hin Hg Hcr.
  assert (Hinc : Array_includes names TABLE_NAME = false).
  { unfold Array_includes. apply not_true_is_false. intros H.
    apply existsb_exists in H. destruct H as (y & Hy & Heq).
    apply String.eqb_eq in Heq. subst y. contradiction. }
  split; [|split].
  - run. rewrite Hs, Hc. simpl. rewrite Hn. simpl. rewrite Hinc. simpl. rewrite Hg. simpl.
    simpl in Hcr. rewrite Hcr. simpl. repeat split.
  - run. rewrite Hs, Hc. simpl. rewrite Hn. simpl. rewrite Hinc. simpl. rewrite Hg. simpl.
    simpl in Hcr. rewrite Hcr. simpl. now rewrite <- !app_assoc.
  - eexists. split; [reflexivity|]. simpl. repeat split.
    + now rewrite repeat_length.
    + constructor; [reflexivity|]. apply Forall_forall. intros v Hv.
      now apply repeat_spec in Hv.
Qed.

Lemma initialization_creates_missing_table_witness :
  calls (snd (initializeVectorStore (freshWorld []) initialState))
  = calls initialState
    ++ [CallConnect (VECTOR_STORE_DIR (freshWorld [])); CallTableNames (ConnectionHandle 1);
        CallGetEmbeddings "schema_init";
        CallCreateTable (ConnectionHandle 1) TABLE_NAME
          (dummyData (freshWorld []) 2 (Some (clock (freshWorld []) 0)))].
Proof.
  destruct (initialization_creates_missing_table
              (freshWorld []) initialState (ConnectionHandle 1) []
              (Num (1 # 2)) [Num (1 # 4)] (TableHandle 1)
              eq_refl eq_refl eq_refl (fun H => H) eq_refl eq_refl)
    as (_ & Hcalls & _).
  exact Hcalls.
Defined.

(** X13. A failed initialization can be tried again: when a call has
    thrown, the next call starts from the beginning, and in a world where no
    step fails it returns with the flag set. *)
Theorem failed_initialization_can_be_retried (W1 W2 : Collaborators) (s : State) (e : exn) :
  fst (initializeVectorStore W1 s) = Thrown e ->
  (forall e', ~ initFailure W2 (snd (initializeVectorStore W1 s)) e') ->
  fst (initializeVectorStore W2 (snd (initializeVectorStore W1 s))) = Returned tt
  /\ isInitialized (snd (initializeVectorStore W2 (snd (initializeVectorStore W1 s)))) = true.
Proof.
  intros He Hok.
  assert (Hs : isInitialized s = false).
  { destruct (isInitialized s) eqn:Hs; [|reflexivity].
    rewrite init_when_initialized in He by exact Hs. discriminate. }
  assert (Hdown : isInitialized (snd (initializeVectorStore W1 s)) = false).
  { destruct (init_when_uninitialized W1 s Hs) as [(e1 & _ & _ & Hn & _)|(Hr & _)];
      [exact Hn | congruence]. }
  destruct (init_when_uninitialized W2 _ Hdown) as [(e2 & Hf & _)|(Hr & Hi & _)].
  - exfalso. exact (Hok e2 Hf).
  - now split.
Qed.

Lemma failed_initialization_can_be_retried_witness :
  fst (initializeVectorStore (freshWorld [])
         (snd (initializeVectorStore deadWorld initialState))) = Returned tt
  /\ isInitialized (snd (initializeVectorStore (freshWorld [])
                           (snd (initializeVectorStore deadWorld initialState)))) = true.
Proof.
  apply (failed_initialization_can_be_retried
           deadWorld (freshWorld []) initialState (Error "connection refused")).
  - reflexivity.
  - intros e' H. inversion H; simpl in *; try discriminate.
    match goal with
    | Hg : Returned _ = Returned ?v, Hd : ?v = None \/ ?v = Some [] |- _ =>
        injection Hg as <-; destruct Hd; discriminate
    end.
Defined.

(** X14. When the initializer throws, the last call of the console is
    [console.error] with the text that ends in the message of the error
    thrown, followed by the error itself. *)
Theorem initialization_failure_is_logged (W : Collaborators) (s : State) (e : exn) :
  fst (initializeVectorStore W s) = Thrown e ->
  exists earlier,
    console (snd (initializeVectorStore W s))
    = earlier
      ++ [(ERROR, ("Error initializing vector store: " ++ message e)%string, Some e)].
Proof.
  run. destruct (isInitialized s); simpl; [discriminate|].
  destruct (connect W (VECTOR_STORE_DIR W)) as [c|e1]; simpl;
    [|intros [= <-]; eexists; reflexivity].
  destruct (tableNames W c) as [names|e1]; simpl;
    [|intros [= <-]; eexists; reflexivity].
  destruct (Array_includes names TABLE_NAME); simpl.
  - destruct (openTable W c TABLE_NAME) as [t|e1]; simpl;
      [discriminate | intros [= <-]; eexists; reflexivity].
  - destruct (getEmbeddings W "schema_init") as [[[|x sample]|]|e1]; simpl;
      try (intros [= <-]; eexists; reflexivity).
    destruct (createTable W c TABLE_NAME _) as [t|e1]; simpl;
      [discriminate | intros [= <-]; eexists; reflexivity].
Qed.

Lemma initialization_failure_is_logged_witness :
  exists earlier,
    console (snd (initializeVectorStore deadWorld initialState))
    = earlier ++ [(ERROR, "Error initializing vector store: connection refused",
                   Some (Error "connection refused"))].
Proof.
  apply (initialization_failure_is_logged deadWorld initialState (Error "connection refused")).
  reflexivity.
Defined.

(** X15. When the table is not listed and the sample embedding is absent
    or empty, a first initialization throws the error of the unknown
    dimension and makes no attempt to create the table. *)
Theorem unknown_dimension_creates_nothing (W : Collaborators) (s : State)
        (c : Connection) (names : list string) (sample : option (list number)) :
  isInitialized s = false ->
  connect W (VECTOR_STORE_DIR W) = Returned c ->
  tableNames W c = Returned names ->
  ~ In TABLE_NAME names ->
  getEmbeddings W "schema_init" = Returned sample ->
  sample = None \/ sample = Some [] ->
  fst (initializeVectorStore W s) = Thrown EmbeddingUnavailable
  /\ calls (snd (initializeVectorStore W s))
     = calls s ++ [CallConnect (VECTOR_STORE_DIR W); CallTableNames c;
                   CallGetEmbeddings "schema_init"]
  /\ creations (snd (initializeVectorStore W s)) = creations s.
Proof.
  intros Hs Hc Hn Hin Hg Hd.
  assert (Hinc : Array_includes names TABLE_NAME = false).
  { unfold Array_includes. apply not_true_is_false. intros H.
    apply existsb_exists in H. destruct H as (y & Hy & Heq).
    apply String.eqb_eq in Heq. subst y. contradiction. }
  assert (Hcalls : fst (initializeVectorStore W s) = Thrown EmbeddingUnavailable
                   /\ calls (snd (initializeVectorStore W s))
                      = calls s ++ [CallConnect (VECTOR_STORE_DIR W); CallTableNames c;
                                    CallGetEmbeddings "schema_init"]).
  { run. rewrite Hs, Hc. simpl. rewrite Hn. simpl. rewrite Hinc. simpl. rewrite Hg.
    destruct Hd as [-> | ->]; simpl; (split; [reflexivity | now rewrite <- !app_assoc]). }
  destruct Hcalls as [Hthrow Hcalls]. split; [exact Hthrow | split; [exact Hcalls|]].
  unfold creations. rewrite Hcalls, filter_app. simpl. now rewrite app_nil_r.
Qed.

Lemma unknown_dimension_creates_nothing_witness :
  fst (initializeVectorStore noEmbeddingWorld initialState) = Thrown EmbeddingUnavailable
  /\ calls (snd (initializeVectorStore noEmbeddingWorld initialState))
     = calls initialState
       ++ [CallConnect (VECTOR_STORE_DIR noEmbeddingWorld);
           CallTableNames (ConnectionHandle 1); CallGetEmbeddings "schema_init"]
  /\ creations (snd (initializeVectorStore noEmbeddingWorld initialState))
     = creations initialState.
Proof.
  apply (unknown_dimension_creates_nothing
           noEmbeddingWorld initialState (ConnectionHandle 1) ["notes"] None);
    try reflexivity.
  - intros [H|[]]. discriminate H.
  - now left.
Defined.

End LifecycleExtras.

(** ** Texts *)

Module TextFacts.
Import BigQueryText TextVocabulary.

Lemma append_assoc (a b c : string) : ((a ++ b) ++ c = a ++ (b ++ c))%string.
Proof. induction a as [|x a IH]; simpl; [reflexivity | now rewrite IH]. Qed.

Lemma append_nil_r (a : string) : (a ++ "")%string = a.
Proof. induction a as [|x a IH]; simpl; [reflexivity | now rewrite IH]. Qed.

Lemma length_append (a b : string) :
  String.length (a ++ b) = (String.length a + String.length b)%nat.
Proof. induction a as [|x a IH]; simpl; [reflexivity | now rewrite IH]. Qed.

Lemma toUpperCase_app (a b : string) :
  ASCII_toUpperCase (a ++ b) = (ASCII_toUpperCase a ++ ASCII_toUpperCase b)%string.
Proof. induction a as [|x a IH]; simpl; [reflexivity | now rewrite IH]. Qed.

Lemma String_forallb_app class (a b : string) :
  String_forallb class (a ++ b) = String_forallb class a && String_forallb class b.
Proof.
  induction a as [|x a IH]; simpl; [reflexivity|]. now rewrite IH, andb_assoc.
Qed.

Lemma isWordChar_toUpperCase c : isWordChar (ascii_toUpperCase c) = isWordChar c.
Proof. destruct c as [[] [] [] [] [] [] [] []]; reflexivity. Qed.

Lemma isWhiteSpace_toUpperCase c : isWhiteSpace (ascii_toUpperCase c) = isWhiteSpace c.
Proof. destruct c as [[] [] [] [] [] [] [] []]; reflexivity. Qed.

Lemma sameIgnoringCase_class class (a b : string) :
  (forall c, class (ascii_toUpperCase c) = class c) ->
  sameIgnoringCase a b -> String_forallb class a = String_forallb class b.
Proof.
  intros Hc. unfold sameIgnoringCase. revert b.
  induction a as [|x a IH]; intros [|y b]; simpl; try discriminate; [reflexivity|].
  intros [= Hxy Hab]. rewrite (IH b Hab).
  now rewrite <- (Hc x), <- (Hc y), Hxy.
Qed.

Lemma matchLiteral_app (literal m rest : string) :
  sameIgnoringCase m literal -> matchLiteral literal (m ++ rest) = Some rest.
Proof.
  unfold sameIgnoringCase. revert m.
  induction literal as [|p literal IH]; intros [|c m]; simpl; try discriminate; [reflexivity|].
  intros [= Hc Hm]. rewrite Hc, Ascii.eqb_refl. now apply IH.
Qed.

Lemma matchLiteral_inv (literal s rest : string) :
  matchLiteral literal s = Some rest ->
  exists m, s = (m ++ rest)%string /\ sameIgnoringCase m literal.
Proof.
  revert s. induction literal as [|p literal IH]; intros s; simpl.
  - intros [= ->]. now exists EmptyString.
  - destruct s as [|c s]; [discriminate|].
    destruct (Ascii.eqb_spec (ascii_toUpperCase c) (ascii_toUpperCase p)) as [Hc|_];
      [|discriminate].
    intros H. destruct (IH s H) as (m & -> & Hm). exists (String c m).
    split; [reflexivity|]. unfold sameIgnoringCase in *. simpl. now rewrite Hc, Hm.
Qed.

Lemma span_spec class (s run rest : string) :
  span class s = (run, rest) ->
  s = (run ++ rest)%string /\ String_forallb class run = true.
Proof.
  revert run rest. induction s as [|c s IH]; simpl; intros run rest.
  - intros [= <- <-]. now split.
  - destruct (class c) eqn:Hc.
    + destruct (span class s) as [run' rest'] eqn:Hs. intros [= <- <-].
      destruct (IH run' rest' eq_refl) as [-> Hall]. simpl. now rewrite Hc.
    + intros [= <- <-]. now split.
Qed.

Lemma span_run class (run : string) c rest :
  String_forallb class run = true -> class c = false ->
  span class (run ++ String c rest) = (run, String c rest).
Proof.
  intros Hrun Hc. induction run as [|x run IH]; simpl.
  - now rewrite Hc.
  - simpl in Hrun. apply andb_true_iff in Hrun. destruct Hrun as [Hx Hrun].
    now rewrite Hx, (IH Hrun).
Qed.

Lemma replaceMatches_here projectId (s : string) :
  replaceMatches projectId O s
  = match matchAt s with
    | Some (Some dataset, rest) =>
        match s with
        | EmptyString => Returned EmptyString
        | String _ s' =>
            prepend (qualified projectId dataset)
                    (replaceMatches projectId (String.length s' - String.length rest) s')
        end
    | Some (None, _) => Thrown datasetRequired
    | None =>
        match s with
        | EmptyString => Returned EmptyString
        | String c s' => prepend (String c EmptyString) (replaceMatches projectId O s')
        end
    end.
Proof. destruct s; reflexivity. Qed.

Lemma replaceMatches_skip projectId (m rest : string) :
  replaceMatches projectId (String.length m) (m ++ rest) = replaceMatches projectId O rest.
Proof.
  induction m as [|c m IH]; simpl; [|exact IH].
  destruct rest; reflexivity.
Qed.

Lemma prepend_prepend a b r : prepend a (prepend b r) = prepend (a ++ b) r.
Proof. destruct r; simpl; [now rewrite append_assoc | reflexivity]. Qed.

Lemma prepend_nil r : prepend EmptyString r = r.
Proof. now destruct r. Qed.

(** A text in which no match begins is returned as it is. *)
Lemma replaceMatches_none projectId (s : string) :
  (forall before after, s = (before ++ after)%string -> matchAt after = None) ->
  replaceMatches projectId O s = Returned s.
Proof.
  induction s as [|c s IH]; intros H.
  - reflexivity.
  - rewrite replaceMatches_here, (H EmptyString (String c s) eq_refl).
    rewrite IH; [reflexivity|].
    intros before after ->. now apply (H (String c before) after).
Qed.

(** Ahead of the first letter F no match begins. *)
Lemma replaceMatches_withoutF projectId (before s : string) :
  withoutF before ->
  replaceMatches projectId O (before ++ s) = prepend before (replaceMatches projectId O s).
Proof.
  unfold withoutF. induction before as [|c before IH]; intros H.
  - simpl. now rewrite prepend_nil.
  - simpl in H. apply andb_true_iff in H. destruct H as [Hc H].
    change (String c before ++ s)%string with (String c (before ++ s)).
    rewrite replaceMatches_here.
    assert (Hno : matchAt (String c (before ++ s)) = None).
    { unfold matchAt. simpl.
      destruct (Ascii.eqb_spec (ascii_toUpperCase c) (ascii_toUpperCase "F")) as [Heq|_];
        [|reflexivity].
      change (ascii_toUpperCase "F") with "F"%char in Heq. rewrite Heq in Hc.
      discriminate Hc. }
    rewrite Hno, (IH H). now rewrite prepend_prepend.
Qed.

Local Arguments matchLiteral : simpl never.

(** A match occurs in the text, in some case of its letters. *)
Lemma matchAt_mentions (s : string) capture rest :
  matchAt s = Some (capture, rest) ->
  exists before m,
    s = (before ++ m ++ rest)%string /\ sameIgnoringCase m "INFORMATION_SCHEMA.TABLES".
Proof.
  unfold matchAt.
  destruct (matchLiteral "FROM" s) as [afterFrom|] eqn:Hfrom; [|discriminate].
  destruct (matchLiteral_inv _ _ _ Hfrom) as (from & -> & _).
  destruct (span isWhiteSpace afterFrom) as [[|w ws] afterSpace] eqn:Hws;
    [simpl; discriminate|].
  destruct (span_spec _ _ _ _ Hws) as [-> _].
  destruct (span isWordChar afterSpace) as [word afterWord] eqn:Hword.
  destruct (span_spec _ _ _ _ Hword) as [-> _].
  destruct word as [|x word].
  - simpl. destruct (matchLiteral "INFORMATION_SCHEMA.TABLES" afterWord) as [r|] eqn:Hlit;
      [|discriminate].
    intros [= <- <-]. destruct (matchLiteral_inv _ _ _ Hlit) as (m & -> & Hm).
    exists (from ++ String w ws)%string, m. split; [|exact Hm].
    now rewrite !append_assoc.
  - destruct afterWord as [|d afterDot].
    + destruct (matchLiteral "INFORMATION_SCHEMA.TABLES" (String x word ++ "")) as [r|] eqn:Hlit;
        [|discriminate].
      intros [= <- <-]. destruct (matchLiteral_inv _ _ _ Hlit) as (m & Heq & Hm).
      exists (from ++ String w ws)%string, m. split; [|exact Hm].
      now rewrite Heq, !append_assoc.
    + destruct (Ascii.eqb_spec d ".") as [->|Hd].
      * destruct (matchLiteral "INFORMATION_SCHEMA.TABLES" afterDot) as [r|] eqn:Hdot.
        -- intros [= <- <-]. destruct (matchLiteral_inv _ _ _ Hdot) as (m & -> & Hm).
           exists (from ++ String w ws ++ String x word ++ ".")%string, m.
           split; [|exact Hm]. now rewrite !append_assoc.
        -- destruct (matchLiteral "INFORMATION_SCHEMA.TABLES" (String x word ++ String "." afterDot))
             as [r|] eqn:Hlit; [|discriminate].
           intros [= <- <-]. destruct (matchLiteral_inv _ _ _ Hlit) as (m & Heq & Hm).
           exists (from ++ String w ws)%string, m. split; [|exact Hm].
           now rewrite Heq, !append_assoc.
      * assert (Hnone :
                  match d with
                  | "."%char => matchLiteral "INFORMATION_SCHEMA.TABLES" afterDot
                  | _ => None
                  end = None).
        { destruct d as [[] [] [] [] [] [] [] []]; try reflexivity. now contradiction Hd. }
        rewrite Hnone.
        destruct (matchLiteral "INFORMATION_SCHEMA.TABLES" (String x word ++ String d afterDot))
          as [r|] eqn:Hlit; [|discriminate].
        intros [= <- <-]. destruct (matchLiteral_inv _ _ _ Hlit) as (m & Heq & Hm).
        exists (from ++ String w ws)%string, m. split; [|exact Hm].
        now rewrite Heq, !append_assoc.
Qed.
End TextFacts.

(** ** Qualifying INFORMATION_SCHEMA *)

Module TextExtras.
Import BigQueryText TextVocabulary TextFacts Vocabulary QueryToolProperties.

Lemma matchLiteral_mismatch p literal c s :
  ascii_toUpperCase c <> ascii_toUpperCase p ->
  matchLiteral (String p literal) (String c s) = None.
Proof.
  intros H. simpl.
  now destruct (Ascii.eqb_spec (ascii_toUpperCase c) (ascii_toUpperCase p)).
Qed.

Lemma isWordChar_not_space c : isWordChar c = true -> isWhiteSpace c = false.
Proof. destruct c as [[] [] [] [] [] [] [] []]; simpl; intros H; try reflexivity; discriminate H. Qed.

Lemma sameIgnoringCase_head (a : string) p literal :
  sameIgnoringCase a (String p literal) ->
  exists c a', a = String c a' /\ ascii_toUpperCase c = ascii_toUpperCase p
               /\ sameIgnoringCase a' literal.
Proof.
  unfold sameIgnoringCase. destruct a as [|c a']; simpl; [discriminate|].
  intros [= Hc Ha]. now exists c, a'.
Qed.

Lemma view_sameIgnoringCase (schema tables : string) :
  sameIgnoringCase schema "INFORMATION_SCHEMA" ->
  sameIgnoringCase tables "TABLES" ->
  sameIgnoringCase (schema ++ "." ++ tables) "INFORMATION_SCHEMA.TABLES".
Proof.
  unfold sameIgnoringCase. intros Hs Ht. rewrite !toUpperCase_app, Hs, Ht. reflexivity.
Qed.

Section Matches.
Variables from space schema tables after : string.
Hypothesis Hfrom : sameIgnoringCase from "FROM".
Hypothesis Hspace : isSpace space.
Hypothesis Hschema : sameIgnoringCase schema "INFORMATION_SCHEMA".
Hypothesis Htables : sameIgnoringCase tables "TABLES".

Lemma view_matches :
  matchLiteral "INFORMATION_SCHEMA.TABLES" (schema ++ "." ++ tables ++ after) = Some after.
Proof.
  replace (schema ++ "." ++ tables ++ after)%string
    with ((schema ++ "." ++ tables) ++ after)%string
    by (now rewrite !append_assoc).
  apply matchLiteral_app. now apply view_sameIgnoringCase.
Qed.

Lemma matchAt_without_dataset :
  matchAt (from ++ space ++ schema ++ "." ++ tables ++ after) = Some (None, after).
Proof.
  destruct Hspace as [Hne Hws].
  destruct (sameIgnoringCase_head _ _ _ Hschema) as (c & schema' & Hs & Hc & _).
  destruct (sameIgnoringCase_head _ _ _ Htables) as (t & tables' & Ht & Htc & _).
  assert (Hcw : isWhiteSpace c = false)
    by (rewrite <- isWhiteSpace_toUpperCase, Hc; reflexivity).
  assert (Hword : String_forallb isWordChar schema = true)
    by (rewrite (sameIgnoringCase_class isWordChar _ _ isWordChar_toUpperCase Hschema);
        reflexivity).
  unfold matchAt. rewrite (matchLiteral_app "FROM" from _ Hfrom).
  assert (Hspan1 : span isWhiteSpace (space ++ schema ++ "." ++ tables ++ after)
                   = (space, (schema ++ "." ++ tables ++ after)%string)).
  { rewrite Hs. simpl. now apply span_run. }
  rewrite Hspan1. destruct space as [|w ws]; [contradiction|].
  assert (Hspan2 : span isWordChar (schema ++ "." ++ tables ++ after)
                   = (schema, ("." ++ tables ++ after)%string))
    by (now apply span_run).
  rewrite Hspan2. rewrite Hs at 1.
  change ("." ++ tables ++ after)%string with (String "." (tables ++ after)).
  cbv iota beta.
  assert (Hno : matchLiteral "INFORMATION_SCHEMA.TABLES" (tables ++ after) = None).
  { rewrite Ht. apply matchLiteral_mismatch. rewrite Htc. discriminate. }
  rewrite Hno.
  change (String "." (tables ++ after)) with ("." ++ tables ++ after)%string.
  now rewrite view_matches.
Qed.

Lemma matchAt_with_dataset (dataset : string) :
  isWord dataset ->
  matchAt (from ++ space ++ dataset ++ "." ++ schema ++ "." ++ tables ++ after)
  = Some (Some dataset, after).
Proof.
  intros [Hdne Hdw]. destruct Hspace as [Hne Hws].
  destruct dataset as [|d dataset']; [contradiction|].
  assert (Hd : isWhiteSpace d = false).
  { apply isWordChar_not_space. simpl in Hdw. now apply andb_true_iff in Hdw. }
  unfold matchAt. rewrite (matchLiteral_app "FROM" from _ Hfrom).
  assert (Hspan1 :
            span isWhiteSpace
                 (space ++ String d dataset' ++ "." ++ schema ++ "." ++ tables ++ after)
            = (space, (String d dataset' ++ "." ++ schema ++ "." ++ tables ++ after)%string)).
  { simpl. now apply span_run. }
  rewrite Hspan1. destruct space as [|w ws]; [contradiction|].
  assert (Hspan2 :
            span isWordChar (String d dataset' ++ "." ++ schema ++ "." ++ tables ++ after)
            = (String d dataset', ("." ++ schema ++ "." ++ tables ++ after)%string))
    by (now apply span_run).
  rewrite Hspan2.
  change ("." ++ schema ++ "." ++ tables ++ after)%string
    with (String "." (schema ++ "." ++ tables ++ after)).
  cbv iota beta. now rewrite view_matches.
Qed.
End Matches.

(** X16. A text whose upper-case form does not contain
    INFORMATION_SCHEMA.TABLES is returned as it is. *)
Theorem text_without_the_view_is_unchanged (sql projectId : string) :
  ~ occursIn "INFORMATION_SCHEMA.TABLES" (ASCII_toUpperCase sql) ->
  qualifyTablePath sql projectId = Returned sql.
Proof.
  intros Hno. apply replaceMatches_none. intros before after ->.
  destruct (matchAt after) as [[capture rest]|] eqn:Hm; [|reflexivity].
  exfalso. apply Hno.
  destruct (matchAt_mentions _ _ _ Hm) as (b & m & -> & Hsame).
  exists (ASCII_toUpperCase (before ++ b)), (ASCII_toUpperCase rest).
  rewrite !toUpperCase_app, Hsame. simpl. now rewrite !append_assoc.
Qed.

Lemma text_without_the_view_is_unchanged_witness :
  qualifyTablePath "SELECT name FROM sales.orders WHERE schema = 'x'" "my-project"
  = Returned "SELECT name FROM sales.orders WHERE schema = 'x'".
Proof.
  apply text_without_the_view_is_unchanged.
  intros H. apply String_includes_occurs in H. vm_compute in H. discriminate H.
Defined.

Lemma qualify_without_dataset
      (before from space schema tables after projectId : string) :
  withoutF before ->
  sameIgnoringCase from "FROM" ->
  isSpace space ->
  sameIgnoringCase schema "INFORMATION_SCHEMA" ->
  sameIgnoringCase tables "TABLES" ->
  qualifyTablePath (before ++ from ++ space ++ schema ++ "." ++ tables ++ after) projectId
  = Thrown datasetRequired.
Proof.
  intros Hb Hf Hs Hsc Ht. unfold qualifyTablePath.
  rewrite replaceMatches_withoutF by exact Hb.
  rewrite replaceMatches_here, (matchAt_without_dataset _ _ _ _ _ Hf Hs Hsc Ht).
  reflexivity.
Qed.

(** X17. A text that reads FROM INFORMATION_SCHEMA.TABLES without a dataset,
    in any case of the letters and with any white space after FROM, is
    refused with the error that asks for the dataset. (Ahead of it the text
    has no letter F.) *)
Theorem view_without_dataset_is_refused
        (before from space schema tables after projectId : string) :
  withoutF before ->
  sameIgnoringCase from "FROM" ->
  isSpace space ->
  sameIgnoringCase schema "INFORMATION_SCHEMA" ->
  sameIgnoringCase tables "TABLES" ->
  qualifyTablePath (before ++ from ++ space ++ schema ++ "." ++ tables ++ after) projectId
  = Thrown datasetRequired.
Proof. apply qualify_without_dataset. Qed.

Lemma view_without_dataset_is_refused_witness :
  qualifyTablePath "select * from   information_schema.Tables limit 5" "my-project"
  = Thrown datasetRequired.
Proof.
  apply (view_without_dataset_is_refused
           "select * " "from" "   " "information_schema" "Tables" " limit 5" "my-project");
    try reflexivity.
  split; [discriminate | reflexivity].
Defined.

(** X18. A reference FROM dataset.INFORMATION_SCHEMA.TABLES is replaced by
    the back-quoted path that begins with the project id, with FROM, the view
    and the single space written as in the pattern; the text after it is
    qualified in the same way. (Ahead of it the text has no letter F.) *)
Theorem view_with_dataset_is_qualified
        (before from space dataset schema tables after projectId : string) :
  withoutF before ->
  sameIgnoringCase from "FROM" ->
  isSpace space ->
  isWord dataset ->
  sameIgnoringCase schema "INFORMATION_SCHEMA" ->
  sameIgnoringCase tables "TABLES" ->
  qualifyTablePath
    (before ++ from ++ space ++ dataset ++ "." ++ schema ++ "." ++ tables ++ after) projectId
  = prepend (before ++ "FROM `" ++ projectId ++ "." ++ dataset ++ ".INFORMATION_SCHEMA.TABLES`")
            (qualifyTablePath after projectId).
Proof.
  intros Hb Hf Hs Hd Hsc Ht. unfold qualifyTablePath.
  rewrite replaceMatches_withoutF by exact Hb.
  rewrite replaceMatches_here, (matchAt_with_dataset _ _ _ _ _ Hf Hs Hsc Ht _ Hd).
  destruct (sameIgnoringCase_head _ _ _ Hf) as (f & from' & -> & _ & _).
  simpl (String f from' ++ _)%string. cbv iota.
  assert (Hsplit :
            (from' ++ space ++ dataset ++ String "." (schema ++ String "." (tables ++ after)))%string
            = ((from' ++ space ++ dataset ++ "." ++ schema ++ "." ++ tables) ++ after)%string)
    by (rewrite !append_assoc; reflexivity).
  rewrite Hsplit, length_append, Nat.add_sub, replaceMatches_skip, prepend_prepend.
  reflexivity.
Qed.

Lemma view_with_dataset_is_qualified_witness :
  qualifyTablePath "select * From sales.information_schema.tables limit 5" "my-project"
  = Returned "select * FROM `my-project.sales.INFORMATION_SCHEMA.TABLES` limit 5".
Proof.
  apply (view_with_dataset_is_qualified
           "select * " "From" " " "sales" "information_schema" "tables" " limit 5"
           "my-project");
    try reflexivity; split; (discriminate || reflexivity).
Defined.

End TextExtras.

(** ** More on the query tool *)

Module QueryToolExtras.
Import BigQueryServer BigQueryText Vocabulary TextVocabulary TextFacts QueryToolProperties.

Lemma prefix_inv (p s : string) :
  String.prefix p s = true -> exists post, s = (p ++ post)%string.
Proof.
  revert s. induction p as [|a p IH]; intros s H.
  - now exists s.
  - destruct s as [|b s]; simpl in H; [discriminate|].
    destruct (ascii_dec a b) as [->|]; [|discriminate].
    destruct (IH s H) as (post & ->). now exists post.
Qed.

Lemma String_includes_inv (s sub : string) :
  String_includes s sub = true -> occursIn sub s.
Proof.
  induction s as [|c s IH]; rewrite String_includes_unfold.
  - destruct (String.prefix sub "") eqn:Hp; [|discriminate].
    intros _. destruct (prefix_inv _ _ Hp) as (post & Hpost).
    exists EmptyString, post. exact Hpost.
  - destruct (String.prefix sub (String c s)) eqn:Hp.
    + intros _. destruct (prefix_inv _ _ Hp) as (post & Hpost).
      exists EmptyString, post. exact Hpost.
    + intros H. destruct (IH H) as (before & after & ->).
      now exists (String c before), after.
Qed.

Lemma String_includes_absent (s sub : string) :
  ~ occursIn sub s -> String_includes s sub = false.
Proof.
  intros H. destruct (String_includes s sub) eqn:E; [|reflexivity].
  exfalso. now apply H, String_includes_inv.
Qed.

Section Handler.
Variable toUpperCase : string -> string.
Variable qualify : string -> string -> outcome string.
Variable Rows : Type.
Variable JSON_stringify : Rows -> string.
Variable bigquery_query : QueryOptions -> outcome Rows.
Variables projectId location_ : string.

Lemma guard_passes (sql : string) :
  (forall kw, In kw writeKeywords -> ~ occursIn kw (toUpperCase sql)) ->
  String_includes (toUpperCase sql) "INSERT"
  || String_includes (toUpperCase sql) "UPDATE"
  || String_includes (toUpperCase sql) "DELETE"
  || String_includes (toUpperCase sql) "CREATE"
  || String_includes (toUpperCase sql) "DROP" = false.
Proof.
  intros H.
  assert (Hf : forall kw, In kw writeKeywords ->
                          String_includes (toUpperCase sql) kw = false)
    by (intros kw Hkw; apply String_includes_absent, H, Hkw).
  pose proof (Hf "INSERT" ltac:(simpl; auto 6)) as H1.
  pose proof (Hf "UPDATE" ltac:(simpl; auto 6)) as H2.
  pose proof (Hf "DELETE" ltac:(simpl; auto 6)) as H3.
  pose proof (Hf "CREATE" ltac:(simpl; auto 6)) as H4.
  pose proof (Hf "DROP" ltac:(simpl; auto 6)) as H5.
  now rewrite H1, H2, H3, H4, H5.
Qed.

Lemma guard_inv (sql : string) :
  String_includes (toUpperCase sql) "INSERT"
  || String_includes (toUpperCase sql) "UPDATE"
  || String_includes (toUpperCase sql) "DELETE"
  || String_includes (toUpperCase sql) "CREATE"
  || String_includes (toUpperCase sql) "DROP" = false ->
  forall kw, In kw writeKeywords -> ~ occursIn kw (toUpperCase sql).
Proof.
  intros H kw Hkw Hocc. apply String_includes_occurs in Hocc.
  repeat (apply orb_false_iff in H; destruct H as [H ?]).
  simpl in Hkw. destruct Hkw as [<-|[<-|[<-|[<-|[<-|[]]]]]]; congruence.
Qed.

(** X19. Whatever is sent to the backend was asked of the tool "query",
    with a SQL text whose upper-case form contains none of the five words;
    and it is one query, for the configured location. *)
Theorem backend_receives_only_guarded_queries
        (name : string) (sql maxBytes : option string) :
  snd (callTool toUpperCase qualify Rows JSON_stringify bigquery_query
           projectId location_ name sql maxBytes) <> [] ->
  name = "query"
  /\ exists text options,
      sql = Some text
      /\ (forall kw, In kw writeKeywords -> ~ occursIn kw (toUpperCase text))
      /\ snd (callTool toUpperCase qualify Rows JSON_stringify bigquery_query
           projectId location_ name sql maxBytes) = [options]
      /\ location options = location_.
Proof.
  unfold callTool.
  destruct (String.eqb_spec name "query") as [->|Hname]; [|simpl; congruence].
  destruct sql as [text|]; [|simpl; congruence].
  destruct (String_includes (toUpperCase text) "INSERT"
            || String_includes (toUpperCase text) "UPDATE"
            || String_includes (toUpperCase text) "DELETE"
            || String_includes (toUpperCase text) "CREATE"
            || String_includes (toUpperCase text) "DROP") eqn:Hguard;
    [simpl; congruence|].
  pose proof (guard_inv text Hguard) as Hclean.
  destruct (if String_includes (toUpperCase text) "INFORMATION_SCHEMA"
            then qualify text projectId else Returned text) as [sql'|e];
    [|simpl; congruence].
  intros _. split; [reflexivity|].
  destruct (bigquery_query _) as [rows|e]; simpl;
    (eexists text, _; split; [reflexivity|]; split; [exact Hclean|]; split; reflexivity).
Qed.

(** X20. A SQL text whose upper-case form contains neither one of the five
    words nor INFORMATION_SCHEMA is sent to the backend as it is, in one
    query, with the billing limit given, or 1000000000 when none or an empty
    one is given. The rows come back as JSON with [isError] false, and an
    error of the backend is thrown on. *)
Theorem plain_query_is_forwarded (sql : string) (maxBytes : option string) :
  (forall kw, In kw writeKeywords -> ~ occursIn kw (toUpperCase sql)) ->
  ~ occursIn "INFORMATION_SCHEMA" (toUpperCase sql) ->
  let limit := match maxBytes with
               | Some (String c m) => String c m
               | _ => "1000000000"
               end in
  let options := {| query := sql; location := location_; maximumBytesBilled := limit |} in
  snd (callTool toUpperCase qualify Rows JSON_stringify bigquery_query
           projectId location_ "query" (Some sql) maxBytes) = [options]
  /\ fst (callTool toUpperCase qualify Rows JSON_stringify bigquery_query
           projectId location_ "query" (Some sql) maxBytes)
     = match bigquery_query options with
       | Returned rows => Returned {| content_text := JSON_stringify rows; isError := false |}
       | Thrown e => Thrown e
       end.
Proof.
  intros Hclean Hplain limit options. unfold callTool.
  simpl String.eqb. cbv iota.
  rewrite (guard_passes sql Hclean), (String_includes_absent _ _ Hplain).
  assert (Hlimit : match maxBytes with
                   | Some m => if String.eqb m "" then "1000000000" else m
                   | None => "1000000000"
                   end = limit)
    by (subst limit; destruct maxBytes as [[|c m]|]; reflexivity).
  rewrite Hlimit. fold options.
  destruct (bigquery_query options); split; reflexivity.
Qed.
End Handler.

(** X21. With [qualifyTablePath] in its place: for a SQL text that passes
    the guard and whose upper-case form contains INFORMATION_SCHEMA, the
    backend gets the qualified text, and nothing at all when the qualifying
    throws; so a text that reads FROM INFORMATION_SCHEMA.TABLES without a
    dataset is refused before the backend is reached. *)
Theorem information_schema_query_is_qualified_first
        (toUpperCase : string -> string) (Rows : Type) (JSON_stringify : Rows -> string)
        (bigquery_query : QueryOptions -> outcome Rows)
        (projectId location_ sql : string) (maxBytes : option string) :
  (forall kw, In kw writeKeywords -> ~ occursIn kw (toUpperCase sql)) ->
  occursIn "INFORMATION_SCHEMA" (toUpperCase sql) ->
  (forall e,
      qualifyTablePath sql projectId = Thrown e ->
      callTool toUpperCase qualifyTablePath Rows JSON_stringify bigquery_query
               projectId location_ "query" (Some sql) maxBytes
      = (Thrown e, []))
  /\ (forall sql',
         qualifyTablePath sql projectId = Returned sql' ->
         exists options,
           snd (callTool toUpperCase qualifyTablePath Rows JSON_stringify bigquery_query
                         projectId location_ "query" (Some sql) maxBytes)
           = [options]
           /\ query options = sql')
  /\ (forall before from space schema tables after,
         sql = (before ++ from ++ space ++ schema ++ "." ++ tables ++ after)%string ->
         withoutF before -> sameIgnoringCase from "FROM" -> isSpace space ->
         sameIgnoringCase schema "INFORMATION_SCHEMA" -> sameIgnoringCase tables "TABLES" ->
         callTool toUpperCase qualifyTablePath Rows JSON_stringify bigquery_query
                  projectId location_ "query" (Some sql) maxBytes
         = (Thrown datasetRequired, [])).
Proof.
  intros Hclean Hinfo.
  assert (Hthrow : forall e,
             qualifyTablePath sql projectId = Thrown e ->
             callTool toUpperCase qualifyTablePath Rows JSON_stringify bigquery_query
                      projectId location_ "query" (Some sql) maxBytes
             = (Thrown e, [])).
  { intros e He. unfold callTool. simpl String.eqb. cbv iota.
    rewrite (guard_passes toUpperCase sql Hclean), (String_includes_occurs _ _ Hinfo), He.
    reflexivity. }
  split; [exact Hthrow | split].
  - intros sql' Hq. unfold callTool. simpl String.eqb. cbv iota.
    rewrite (guard_passes toUpperCase sql Hclean), (String_includes_occurs _ _ Hinfo), Hq.
    destruct (bigquery_query _); eexists; split; reflexivity.
  - intros before from space schema tables after -> Hb Hf Hs Hsc Ht.
    apply Hthrow. now apply TextExtras.qualify_without_dataset.
Qed.

Lemma clean_sample (sql : string) :
  String_includes (ASCII_toUpperCase sql) "INSERT"
  || String_includes (ASCII_toUpperCase sql) "UPDATE"
  || String_includes (ASCII_toUpperCase sql) "DELETE"
  || String_includes (ASCII_toUpperCase sql) "CREATE"
  || String_includes (ASCII_toUpperCase sql) "DROP" = false ->
  forall kw, In kw writeKeywords -> ~ occursIn kw (ASCII_toUpperCase sql).
Proof. apply guard_inv. Qed.

Lemma backend_receives_only_guarded_queries_witness :
  "query" = "query"
  /\ exists text options,
      Some "SELECT id FROM logs.events" = Some text
      /\ (forall kw, In kw writeKeywords -> ~ occursIn kw (ASCII_toUpperCase text))
      /\ snd (callTool ASCII_toUpperCase qualifyTablePath unit (fun _ => "[]")
                       (fun _ => Returned tt) "my-project" "us-central1"
                       "query" (Some "SELECT id FROM logs.events") None)
         = [options]
      /\ location options = "us-central1".
Proof.
  apply (backend_receives_only_guarded_queries
           ASCII_toUpperCase qualifyTablePath unit (fun _ => "[]") (fun _ => Returned tt)
           "my-project" "us-central1" "query" (Some "SELECT id FROM logs.events") None).
  vm_compute. discriminate.
Defined.

Lemma plain_query_is_forwarded_witness :
  snd (callTool ASCII_toUpperCase qualifyTablePath unit (fun _ => "[]")
                (fun _ => Returned tt) "my-project" "us-central1"
                "query" (Some "SELECT id FROM logs.events") (Some ""))
  = [{| query := "SELECT id FROM logs.events"; location := "us-central1";
        maximumBytesBilled := "1000000000" |}].
Proof.
  apply (plain_query_is_forwarded
           ASCII_toUpperCase qualifyTablePath unit (fun _ => "[]") (fun _ => Returned tt)
           "my-project" "us-central1" "SELECT id FROM logs.events" (Some "")).
  - apply clean_sample. reflexivity.
  - intros H. apply String_includes_occurs in H. vm_compute in H. discriminate H.
Defined.

Lemma information_schema_query_is_qualified_first_witness :
  callTool ASCII_toUpperCase qualifyTablePath unit (fun _ => "[]")
           (fun _ => Returned tt) "my-project" "us-central1"
           "query" (Some "select * from information_schema.tables") None
  = (Thrown datasetRequired, []).
Proof.
  destruct (information_schema_query_is_qualified_first
              ASCII_toUpperCase unit (fun _ => "[]") (fun _ => Returned tt)
              "my-project" "us-central1" "select * from information_schema.tables" None)
    as (_ & _ & Hrefused).
  - apply clean_sample. reflexivity.
  - exists "SELECT * FROM ", ".TABLES". reflexivity.
  - apply (Hrefused "select * " "from" " " "information_schema" "tables" "");
      try reflexivity.
    split; [discriminate | reflexivity].
Defined.

End QueryToolExtras.

(** ** Listing and reading resources *)

Module ResourceExtras.
Import BigQueryResources TextVocabulary TextFacts.

Lemma String_split_nonempty (s : string) : String_split "/" s <> [].
Proof.
  destruct s as [|c s]; simpl; [discriminate|].
  destruct (Ascii.eqb c "/"); [discriminate|].
  destruct (String_split "/" s); discriminate.
Qed.

Lemma String_split_slashFree (s : string) : slashFree s -> String_split "/" s = [s].
Proof.
  unfold slashFree. induction s as [|c s IH]; simpl; [reflexivity|].
  intros H. apply andb_true_iff in H. destruct H as [Hc H].
  apply negb_true_iff in Hc. now rewrite Hc, (IH H).
Qed.

Lemma String_split_app (a b : string) :
  String_split "/" (a ++ String "/" b) = String_split "/" a ++ String_split "/" b.
Proof.
  induction a as [|c a IH]; simpl; [reflexivity|].
  destruct (Ascii.eqb c "/"); [now rewrite IH|].
  rewrite IH. destruct (String_split "/" a) eqn:E; [|reflexivity].
  now apply String_split_nonempty in E.
Qed.

Lemma Array_pop_last {A : Type} (others : list A) (last : A) :
  Array_pop (others ++ [last]) = (Some last, others).
Proof. unfold Array_pop. rewrite rev_app_distr. simpl. now rewrite rev_involutive. Qed.

Lemma Array_pop_inv {A : Type} (arr others : list A) (last : A) :
  Array_pop arr = (Some last, others) -> arr = others ++ [last].
Proof.
  unfold Array_pop. destruct (rev arr) as [|x r] eqn:E; [discriminate|].
  intros [= <- <-]. rewrite <- (rev_involutive arr), E. reflexivity.
Qed.

(** The text ahead of the last component of a path. *)
Lemma String_split_last (p : string) :
  forall others last,
    String_split "/" p = others ++ [last] ->
    (others = [] -> p = last)
    /\ (others <> [] -> exists before, p = (before ++ "/" ++ last)%string).
Proof.
  induction p as [|c p IH]; simpl; intros others last H.
  - destruct others as [|x [|y others]]; try discriminate.
    injection H as <-. split; [reflexivity | congruence].
  - destruct (Ascii.eqb_spec c "/") as [->|Hc].
    + destruct others as [|x others].
      * simpl in H. injection H as _ H. now apply String_split_nonempty in H.
      * simpl in H. injection H as <- H. split; [discriminate|]. intros _.
        destruct (IH others last H) as [Hnil Hcons].
        destruct others as [|y others].
        -- exists EmptyString. simpl. now rewrite (Hnil eq_refl).
        -- destruct Hcons as (before & ->); [discriminate|].
           now exists (String "/" before).
    + destruct (String_split "/" p) as [|first rest] eqn:E;
        [now apply String_split_nonempty in E|].
      destruct others as [|x others].
      * simpl in H. injection H as <- Hrest. subst rest.
        destruct (IH [] first eq_refl) as [Hnil _].
        split; [intros _; now rewrite (Hnil eq_refl) | congruence].
      * simpl in H. injection H as <- Hrest. split; [discriminate|]. intros _.
        destruct (IH (first :: others) last) as [_ Hcons]; [now rewrite Hrest|].
        destruct Hcons as (before & ->); [discriminate|].
        now exists (String c before).
Qed.

Section Handlers.
Variable URL_href : string -> outcome string.
Variable URL_pathname : string -> outcome string.
Variable getDatasets : outcome (list Dataset).
Variable Fields : Type.
Variable getMetadata : option string -> option string -> outcome Fields.
Variable JSON_stringify : Fields -> string.

(** X22. A resource URI whose path ends in /dataset/table/schema is read by
    asking the backend, once, for the metadata of that table of that dataset;
    the fields come back as JSON under the URI asked for, and an error of the
    backend is thrown on. *)
Theorem schema_uri_reads_its_table (requestUri before dataset table : string) :
  URL_pathname requestUri
  = Returned (before ++ "/" ++ dataset ++ "/" ++ table ++ "/" ++ SCHEMA_PATH)%string ->
  slashFree dataset -> slashFree table ->
  snd (readResource URL_pathname Fields getMetadata JSON_stringify requestUri)
  = [GetMetadata (Some dataset) (Some table)]
  /\ fst (readResource URL_pathname Fields getMetadata JSON_stringify requestUri)
     = match getMetadata (Some dataset) (Some table) with
       | Returned fields =>
           Returned {| contents_uri := requestUri;
                       contents_mimeType := "application/json";
                       contents_text := JSON_stringify fields |}
       | Thrown e => Thrown e
       end.
Proof.
  intros Hp Hd Ht. unfold readResource. rewrite Hp.
  assert (Hsplit : String_split "/" (before ++ "/" ++ dataset ++ "/" ++ table ++ "/" ++ SCHEMA_PATH)
                   = ((String_split "/" before ++ [dataset]) ++ [table]) ++ [SCHEMA_PATH]).
  { change ("/" ++ dataset ++ "/" ++ table ++ "/" ++ SCHEMA_PATH)%string
      with (String "/" (dataset ++ String "/" (table ++ String "/" SCHEMA_PATH))).
    rewrite !String_split_app, (String_split_slashFree _ Hd), (String_split_slashFree _ Ht).
    simpl. now rewrite <- !app_assoc. }
  rewrite Hsplit, !Array_pop_last. simpl.
  destruct (getMetadata (Some dataset) (Some table)); split; reflexivity.
Qed.

(** X23. A resource URI whose path is not [schema] and does not end in
    [/schema] is refused as invalid, and the backend is not asked. *)
Theorem other_uri_is_refused (requestUri pathname : string) :
  URL_pathname requestUri = Returned pathname ->
  pathname <> SCHEMA_PATH ->
  (forall before, pathname <> (before ++ "/" ++ SCHEMA_PATH)%string) ->
  readResource URL_pathname Fields getMetadata JSON_stringify requestUri
  = (Thrown (Error "Invalid resource URI"), []).
Proof.
  intros Hp Hne Hend. unfold readResource. rewrite Hp.
  destruct (Array_pop (String_split "/" pathname)) as [[last|] others] eqn:Hpop.
  - destruct (Array_pop others) as [tableId others1].
    destruct (Array_pop others1) as [datasetId others2].
    destruct (String.eqb_spec last SCHEMA_PATH) as [->|_]; [|reflexivity].
    exfalso. apply Array_pop_inv in Hpop.
    destruct (String_split_last pathname others SCHEMA_PATH Hpop) as [Hnil Hcons].
    destruct others as [|x others'].
    + now apply Hne, Hnil.
    + destruct Hcons as (b & Hb); [discriminate|]. now apply (Hend b).
  - destruct (Array_pop others) as [tableId others1].
    destruct (Array_pop others1) as [datasetId others2]. reflexivity.
Qed.

(** The resources of the tables of one dataset, when every URL can be built. *)
Lemma tableResources_all (href : string -> string) (datasetId : string) (tables : list string) :
  (forall relative, URL_href relative = Returned (href relative)) ->
  tableResources URL_href datasetId tables = Returned (resourcesOf href datasetId tables).
Proof.
  intros Hurl. induction tables as [|t tables IH]; simpl; [reflexivity|].
  now rewrite Hurl, IH.
Qed.

Lemma datasetResources_all (href : string -> string) (datasets : list Dataset) :
  (forall relative, URL_href relative = Returned (href relative)) ->
  (forall d, In d datasets -> exists tables, getTables d = Returned tables) ->
  datasetResources URL_href datasets
  = (Returned (flat_map (fun d => resourcesOf href (dataset_id d) (tablesOf d)) datasets),
     map (fun d => GetTables (dataset_id d)) datasets).
Proof.
  intros Hurl. induction datasets as [|d datasets IH]; intros Hall; [reflexivity|].
  simpl. destruct (Hall d (or_introl eq_refl)) as (tables & Ht).
  unfold tablesOf at 1. rewrite Ht, (tableResources_all href _ _ Hurl).
  rewrite IH; [reflexivity|]. intros d' Hd'. apply Hall. now right.
Qed.

(** X24. When the datasets and the tables of each of them can be listed and
    every URL can be built, the listing asks for the datasets once and for the
    tables of each dataset once, in order, and returns one resource for each
    table, dataset by dataset and table by table, each of the JSON type and
    named after its dataset and table. *)
Theorem every_table_is_listed (href : string -> string) (datasets : list Dataset) :
  getDatasets = Returned datasets ->
  (forall relative, URL_href relative = Returned (href relative)) ->
  (forall d, In d datasets -> exists tables, getTables d = Returned tables) ->
  listResources URL_href getDatasets
  = (Returned (flat_map (fun d => resourcesOf href (dataset_id d) (tablesOf d)) datasets),
     GetDatasets :: map (fun d => GetTables (dataset_id d)) datasets)
  /\ List.length (flat_map (fun d => resourcesOf href (dataset_id d) (tablesOf d)) datasets)
     = list_sum (map (fun d => List.length (tablesOf d)) datasets).
Proof.
  intros Hd Hurl Hall. split.
  - unfold listResources. rewrite Hd, (datasetResources_all href _ Hurl Hall). reflexivity.
  - clear Hd Hall. induction datasets as [|d datasets IH]; simpl; [reflexivity|].
    rewrite length_app, IH. unfold resourcesOf. now rewrite length_map.
Qed.

(** X25. When the tables of a dataset cannot be listed, the listing throws
    that error and returns no resource, also none of the datasets before it;
    the datasets after it are not asked for their tables. *)
Theorem failed_dataset_stops_the_listing
        (href : string -> string) (earlier later : list Dataset) (d : Dataset) (e : exn) :
  getDatasets = Returned (earlier ++ d :: later) ->
  (forall relative, URL_href relative = Returned (href relative)) ->
  (forall d', In d' earlier -> exists tables, getTables d' = Returned tables) ->
  getTables d = Thrown e ->
  listResources URL_href getDatasets
  = (Thrown e,
     GetDatasets :: map (fun d' => GetTables (dataset_id d')) (earlier ++ [d])).
Proof.
  intros Hd Hurl Hall He. unfold listResources. rewrite Hd.
  assert (H : datasetResources URL_href (earlier ++ d :: later)
              = (Thrown e, map (fun d' => GetTables (dataset_id d')) (earlier ++ [d]))).
  { clear Hd. induction earlier as [|d0 earlier IH]; simpl.
    - now rewrite He.
    - destruct (Hall d0 (or_introl eq_refl)) as (tables & Ht).
      rewrite Ht, (tableResources_all href _ _ Hurl).
      rewrite IH; [reflexivity|]. intros d' Hd'. apply Hall. now right. }
  now rewrite H.
Qed.
End Handlers.

Lemma schema_uri_reads_its_table_witness :
  snd (readResource samplePathname unit (fun _ _ => Returned tt) (fun _ => "[]")
                    "bigquery://my-project/sales/orders/schema")
  = [GetMetadata (Some "sales") (Some "orders")].
Proof.
  apply (schema_uri_reads_its_table
           samplePathname unit (fun _ _ => Returned tt) (fun _ => "[]")
           "bigquery://my-project/sales/orders/schema" "" "sales" "orders");
    reflexivity.
Defined.

Lemma other_uri_is_refused_witness :
  readResource samplePathname unit (fun _ _ => Returned tt) (fun _ => "[]")
               "bigquery://my-project/sales/orders/rows"
  = (Thrown (Error "Invalid resource URI"), []).
Proof.
  apply (other_uri_is_refused
           samplePathname unit (fun _ _ => Returned tt) (fun _ => "[]")
           "bigquery://my-project/sales/orders/rows" "/sales/orders/rows").
  - reflexivity.
  - discriminate.
  - intros before H.
    assert (Hs : String_split "/" "/sales/orders/rows"
                 = String_split "/" (before ++ String "/" SCHEMA_PATH))
      by (now rewrite H).
    rewrite String_split_app in Hs. simpl in Hs.
    apply (f_equal (@rev string)) in Hs. rewrite rev_app_distr in Hs. simpl in Hs.
    discriminate Hs.
Defined.

Lemma every_table_is_listed_witness :
  listResources (fun relative => Returned (sampleHref relative))
                (Returned [salesDataset; logsDataset])
  = (Returned (flat_map (fun d => resourcesOf sampleHref (dataset_id d) (tablesOf d))
                        [salesDataset; logsDataset]),
     [GetDatasets; GetTables "sales"; GetTables "logs"])
  /\ List.length (flat_map (fun d => resourcesOf sampleHref (dataset_id d) (tablesOf d))
                           [salesDataset; logsDataset])
     = 3%nat.
Proof.
  apply (every_table_is_listed
           (fun relative => Returned (sampleHref relative))
           (Returned [salesDataset; logsDataset]) sampleHref [salesDataset; logsDataset]).
  - reflexivity.
  - reflexivity.
  - intros d [<-|[<-|[]]]; eexists; reflexivity.
Defined.

Lemma failed_dataset_stops_the_listing_witness :
  listResources (fun relative => Returned (sampleHref relative))
                (Returned [salesDataset; lockedDataset; logsDataset])
  = (Thrown (Error "access denied"), [GetDatasets; GetTables "sales"; GetTables "locked"]).
Proof.
  apply (failed_dataset_stops_the_listing
           (fun relative => Returned (sampleHref relative))
           (Returned [salesDataset; lockedDataset; logsDataset])
           sampleHref [salesDataset] [logsDataset] lockedDataset (Error "access denied")).
  - reflexivity.
  - reflexivity.
  - intros d [<-|[]]. eexists. reflexivity.
  - reflexivity.
Defined.

End ResourceExtras.
